(** * S3/R2 Explorer: listing cache, pagination accumulator, node materializer
      and the two read-path consumers.

    Shallow embedding of
      - [util/cache.ts]   (class [S3Cache]),
      - [tree/explorer.ts] ([refresh], [getChildren], [getBucketContents],
        [getPrefixContents], [createNodes], [createNodesFromCache],
        [loadMore]),
      - [fs/provider.ts]  ([stat], [readDirectory], [createDirectory],
        [writeFile], [delete]).

    Conventions.
      - A JavaScript string is a [string]; one character stands for one
        UTF-16 code unit, so [String.length] is [.length].
      - An optional argument ([prefix?: string]) is an [option string];
        [None] is [undefined].
      - [Date.now()] is an explicit argument [now : Z] (milliseconds).
      - The [Map<string, CacheEntry>] is a [gmap string CacheEntry.t]; the
        insertion order of a JavaScript [Map] is only visible through
        [getStats().keys] and is not modelled. *)

From Stdlib Require Import ZArith Ascii String List Bool Lia.
From stdpp Require Import base option list strings gmap fin_maps.

Local Open Scope string_scope.
Local Open Scope list_scope.
Local Open Scope Z_scope.

(* ===================================================================== *)
(** ** JavaScript string primitives used by the sources *)
(* ===================================================================== *)

Module Js.

(** Truthiness of a possibly undefined string: [undefined] and the empty
    string are falsy. *)
Definition truthy (s : option string) : bool :=
  match s with
  | None => false
  | Some EmptyString => false
  | Some (String _ _) => true
  end.

(** [s || ""] *)
Definition orEmpty (s : option string) : string :=
  if truthy s then default "" s else "".

(** [s || undefined] *)
Definition orUndefined (s : string) : option string :=
  if truthy (Some s) then Some s else None.

(** [s.startsWith(p)] *)
Definition startsWith (s p : string) : bool := String.prefix p s.

(** [s.endsWith(p)] *)
Definition endsWith (s p : string) : bool :=
  let n := String.length s in
  let m := String.length p in
  if (m <=? n)%nat then String.eqb (String.substring (n - m) m s) p
  else false.

(** [s.slice(0, -1)] *)
Definition sliceInit (s : string) : string :=
  String.substring 0 (String.length s - 1) s.

(** [s.substring(n)] for a non-negative integer [n] *)
Definition substringFrom (s : string) (n : nat) : string :=
  String.substring n (String.length s - n) s.

(** [s.split(c)] for a one-character separator: always at least one
    part, [n + 1] parts for [n] separators. *)
Fixpoint split (c : ascii) (s : string) : list string :=
  match s with
  | EmptyString => [EmptyString]
  | String a s' =>
      if Ascii.eqb a c then EmptyString :: split c s'
      else match split c s' with
           | [] => [String a EmptyString]
           | h :: t => String a h :: t
           end
  end.

(** [parts.join(sep)] *)
Fixpoint join (sep : string) (parts : list string) : string :=
  match parts with
  | [] => EmptyString
  | [x] => x
  | x :: rest => x +:+ sep +:+ join sep rest
  end.

(** [s.includes(c)] for a one-character needle *)
Fixpoint includes (s : string) (c : ascii) : bool :=
  match s with
  | EmptyString => false
  | String a s' => Ascii.eqb a c || includes s' c
  end.

(** [s.replace(/\/$/, "")]: without the [m] flag [$] only matches at the
    end of the input, so at most the one trailing slash goes. *)
Definition stripTrailingSlash (s : string) : string :=
  if endsWith s "/" then sliceInit s else s.

(** [arr.findIndex(p)], [-1] when no element satisfies [p]. *)
Fixpoint findIndex {A} (p : A -> bool) (arr : list A) : Z :=
  match arr with
  | [] => -1
  | x :: rest =>
      if p x then 0
      else let r := findIndex p rest in
           if r <? 0 then -1 else r + 1
  end.

(** [arr.filter((x, index, arr) => f(x, index, arr))]: the callback sees
    the element, its index and the whole array. *)
Fixpoint filterFrom {A} (f : A -> Z -> list A -> bool)
         (arr : list A) (index : Z) (rest : list A) : list A :=
  match rest with
  | [] => []
  | x :: rest' =>
      if f x index arr then x :: filterFrom f arr (index + 1) rest'
      else filterFrom f arr (index + 1) rest'
  end.

Definition filterIdx {A} (f : A -> Z -> list A -> bool) (arr : list A)
  : list A :=
  filterFrom f arr 0 arr.

(** [for (const x of xs) arr.push(g(x))] *)
Definition pushEach {A B} (g : A -> B) (arr : list B) (xs : list A)
  : list B :=
  fold_left (fun acc x => acc ++ [g x]) xs arr.

End Js.

(* ===================================================================== *)
(** ** Data model ([types.ts]) *)
(* ===================================================================== *)

(** Modelled from the spec: [types.ts] is not among the sources; the
    record follows the ObjectEntry of the data model (identity is [key]). *)
Module S3Object.
Record t := mk {
  key : string;
  size : Z;
  lastModified : option Z;
  etag : option string;
  storageClass : option string
}.
End S3Object.

(** Modelled from the spec: the PrefixEntry of the data model (identity is
    [prefix]). *)
Module S3Prefix.
Record t := mk { prefix : string }.
End S3Prefix.

(** The object literal stored by [set] and [append]. *)
Module CacheEntry.
Record t := mk {
  objects : list S3Object.t;
  prefixes : list S3Prefix.t;
  lastFetched : Z;
  isTruncated : bool;
  continuationToken : option string
}.
End CacheEntry.

(** The result of the remote [listObjects] call. *)
Module ListResult.
Record t := mk {
  objects : list S3Object.t;
  prefixes : list S3Prefix.t;
  isTruncated : bool;
  continuationToken : option string
}.
End ListResult.

(* ===================================================================== *)
(** ** [class S3Cache] *)
(* ===================================================================== *)

Definition DEFAULT_TTL : Z := 5 * 60 * 1000.

Record S3Cache := mkCache {
  cache : gmap string CacheEntry.t;
  ttl : Z
}.

(** [new S3Cache(ttl)] *)
Definition newCache (ttl : Z) : S3Cache := mkCache ∅ ttl.

Definition getCacheKey (bucket : string) (prefix : option string) : string :=
  bucket +:+ ":" +:+ Js.orEmpty prefix.

(** [get]: the entry and the cache after the call. *)
Definition get (c : S3Cache) (now : Z) (bucket : string)
           (prefix : option string) : option CacheEntry.t * S3Cache :=
  let key := getCacheKey bucket prefix in
  match cache c !! key with
  | None => (None, c)
  | Some entry =>
      if now - CacheEntry.lastFetched entry >? ttl c
      then (None, mkCache (delete key (cache c)) (ttl c))
      else (Some entry, c)
  end.

Definition set (c : S3Cache) (now : Z) (bucket : string)
           (objects : list S3Object.t) (prefixes : list S3Prefix.t)
           (isTruncated : bool) (continuationToken : option string)
           (prefix : option string) : S3Cache :=
  let key := getCacheKey bucket prefix in
  mkCache
    (<[key := CacheEntry.mk objects prefixes now isTruncated
                            continuationToken]> (cache c))
    (ttl c).

(** The keys deleted by the parent loop of [invalidate], in loop order
    ([i] from [parentParts.length - 1] down to [0]). *)
Definition parentKeys (bucket : string) (parentParts : list string)
  : list string :=
  map (fun i =>
         let parentPrefix := Js.join "/" (take i parentParts) in
         getCacheKey bucket (Js.orUndefined parentPrefix))
      (rev (seq 0 (length parentParts))).

Definition invalidate (c : S3Cache) (bucket : string)
           (prefix : option string) : S3Cache :=
  if Js.truthy prefix then
    let p := default "" prefix in
    let key := getCacheKey bucket (Some p) in
    let m := delete key (cache c) in
    let prefixPath := if Js.endsWith p "/" then Js.sliceInit p else p in
    let parentParts := Js.split "/" prefixPath in
    mkCache (fold_left (fun m parentKey => delete parentKey m)
                       (parentKeys bucket parentParts) m)
            (ttl c)
  else
    let bucketPrefix := bucket +:+ ":" in
    mkCache (filter (fun kv => ¬ Is_true (Js.startsWith (fst kv) bucketPrefix))
                    (cache c))
            (ttl c).

Definition invalidateAll (c : S3Cache) : S3Cache := mkCache ∅ (ttl c).

(** [o.key === obj.key] deduplication used by [append]. *)
Definition uniqueObjects (all : list S3Object.t) : list S3Object.t :=
  Js.filterIdx
    (fun obj index arr =>
       Js.findIndex (fun o => String.eqb (S3Object.key o) (S3Object.key obj))
                    arr =? index)
    all.

Definition uniquePrefixes (all : list S3Prefix.t) : list S3Prefix.t :=
  Js.filterIdx
    (fun pref index arr =>
       Js.findIndex
         (fun p => String.eqb (S3Prefix.prefix p) (S3Prefix.prefix pref))
         arr =? index)
    all.

Definition append (c : S3Cache) (now : Z) (bucket : string)
           (objects : list S3Object.t) (prefixes : list S3Prefix.t)
           (isTruncated : bool) (continuationToken : option string)
           (prefix : option string) : S3Cache :=
  let key := getCacheKey bucket prefix in
  match cache c !! key with
  | Some existing =>
      let allObjects := CacheEntry.objects existing ++ objects in
      let allPrefixes := CacheEntry.prefixes existing ++ prefixes in
      mkCache
        (<[key := CacheEntry.mk (uniqueObjects allObjects)
                                (uniquePrefixes allPrefixes)
                                now isTruncated continuationToken]> (cache c))
        (ttl c)
  | None =>
      set c now bucket objects prefixes isTruncated continuationToken prefix
  end.

(** The snapshot returned by [getStats]; [keys] is the key set (the order
    of [Array.from(this.cache.keys())] is not modelled). *)
Module Stats.
Record t := mk { size : nat; keys : gset string }.
End Stats.

Definition getStats (c : S3Cache) : Stats.t :=
  Stats.mk (size (cache c)) (dom (cache c)).

(* ===================================================================== *)
(** ** Display nodes ([tree/nodes.ts]) *)
(* ===================================================================== *)

(** Modelled from the spec: [tree/nodes.ts] is not among the sources; the
    variants and their fields are the DisplayNode variants of the data model
    ([PrefixNode] is the spec's FolderNode), and the three constructors used
    by the materializer fill them from their arguments. *)
Inductive BaseTreeNode :=
| BucketNode (bucket : string)
| PrefixNode (bucket : string) (prefix : string)
| ObjectNode (bucket : string) (key : string) (size : Z)
             (lastModified : option Z)
| LoadMoreNode (bucket : string) (prefix : option string)
               (continuationToken : string).

Definition createPrefixNode (bucket : string) (prefixItem : S3Prefix.t)
           (parentPrefix : option string) : BaseTreeNode :=
  PrefixNode bucket (S3Prefix.prefix prefixItem).

Definition createObjectNode (bucket : string) (object : S3Object.t)
           (parentPrefix : option string) : BaseTreeNode :=
  ObjectNode bucket (S3Object.key object) (S3Object.size object)
             (S3Object.lastModified object).

Definition createLoadMoreNode (bucket : string) (continuationToken : string)
           (prefix : option string) : BaseTreeNode :=
  LoadMoreNode bucket prefix continuationToken.

Definition isLoadMoreNode (n : BaseTreeNode) : bool :=
  match n with LoadMoreNode _ _ _ => true | _ => false end.

(* ===================================================================== *)
(** ** Node materializer ([tree/explorer.ts]) *)
(* ===================================================================== *)

(** [createNodes(bucket, result, prefix)], on a fresh listing result. *)
Definition createNodes (bucket : string) (result : ListResult.t)
           (prefix : option string) : list BaseTreeNode :=
  let nodes := [] in
  let nodes :=
    Js.pushEach (fun prefixItem => createPrefixNode bucket prefixItem prefix)
                nodes (ListResult.prefixes result) in
  let nodes :=
    Js.pushEach (fun object => createObjectNode bucket object prefix)
                nodes (ListResult.objects result) in
  if ListResult.isTruncated result
     && Js.truthy (ListResult.continuationToken result)
  then nodes ++ [createLoadMoreNode bucket
                   (default "" (ListResult.continuationToken result)) prefix]
  else nodes.

(** [createNodesFromCache(bucket, cached, prefix)], on a cache entry. *)
Definition createNodesFromCache (bucket : string) (cached : CacheEntry.t)
           (prefix : option string) : list BaseTreeNode :=
  let nodes := [] in
  let nodes :=
    Js.pushEach (fun prefixItem => createPrefixNode bucket prefixItem prefix)
                nodes (CacheEntry.prefixes cached) in
  let nodes :=
    Js.pushEach (fun object => createObjectNode bucket object prefix)
                nodes (CacheEntry.objects cached) in
  if CacheEntry.isTruncated cached
     && Js.truthy (CacheEntry.continuationToken cached)
  then nodes ++ [createLoadMoreNode bucket
                   (default "" (CacheEntry.continuationToken cached)) prefix]
  else nodes.

(* ===================================================================== *)
(** ** The two read-path consumers *)
(* ===================================================================== *)

Inductive Error :=
| S3Error (code : string)
| Unavailable.

(** A settled promise: fulfilled with a value or rejected with an error. *)
Inductive Outcome (A : Type) :=
| Ok (a : A)
| Throw (e : Error).
Arguments Ok {A} a.
Arguments Throw {A} e.

(** One [listObjects(bucket, prefix, continuationToken)] call. *)
Definition ListCall : Type := string * option string * option string.

(** What the consumers act on: the process-wide cache instance and the
    remote calls issued so far, oldest first. *)
Record World := mkWorld {
  s3Cache : S3Cache;
  listCalls : list ListCall
}.

Inductive FileType := File | Directory.

Section Consumers.

(** The remote listing ([s3/listing.ts], an external collaborator): its
    answer may depend on everything requested before. *)
Variable listObjects :
  list ListCall -> string -> option string -> option string ->
  Outcome ListResult.t.

(** [S3Explorer.getPrefixContents] and [getBucketContents] share this
    body; [prefix] is [None] for the bucket root. [now] is the clock at
    the cache lookup, [later] the clock once the listing has settled. *)
Definition getContents (w : World) (now later : Z) (bucket : string)
           (prefix : option string) (continuationToken : option string)
  : Outcome (list BaseTreeNode) * World :=
  let '(cached, c1) := get (s3Cache w) now bucket prefix in
  let fetch :=
    let calls := listCalls w ++ [(bucket, prefix, continuationToken)] in
    match listObjects (listCalls w) bucket prefix continuationToken with
    | Throw e => (Throw e, mkWorld c1 calls)
    | Ok result =>
        let c2 :=
          if Js.truthy continuationToken then
            append c1 later bucket
                   (ListResult.objects result) (ListResult.prefixes result)
                   (ListResult.isTruncated result)
                   (ListResult.continuationToken result) prefix
          else
            set c1 later bucket
                (ListResult.objects result) (ListResult.prefixes result)
                (ListResult.isTruncated result)
                (ListResult.continuationToken result) prefix in
        (Ok (createNodes bucket result prefix), mkWorld c2 calls)
    end in
  match cached with
  | Some entry =>
      if negb (Js.truthy continuationToken)
      then (Ok (createNodesFromCache bucket entry prefix),
            mkWorld c1 (listCalls w))
      else fetch
  | None => fetch
  end.

Definition getBucketContents (w : World) (now later : Z) (bucket : string)
           (continuationToken : option string) :=
  getContents w now later bucket None continuationToken.

Definition getPrefixContents (w : World) (now later : Z) (bucket : string)
           (prefix : string) (continuationToken : option string) :=
  getContents w now later bucket (Some prefix) continuationToken.

(** [if (prefix) { name = name.substring(prefix.length); }] *)
Definition stripParent (prefix : option string) (name : string) : string :=
  if Js.truthy prefix
  then Js.substringFrom name (String.length (default "" prefix))
  else name.

(** Body of the first loop of [readDirectory]. *)
Definition pushFolder (prefix : option string)
           (entries : list (string * FileType)) (prefixItem : S3Prefix.t)
  : list (string * FileType) :=
  let name := S3Prefix.prefix prefixItem in
  let name := stripParent prefix name in
  let name := Js.stripTrailingSlash name in
  if Js.truthy (Some name) then entries ++ [(name, Directory)]
  else entries.

(** Body of the second loop of [readDirectory]. *)
Definition pushFile (prefix : option string)
           (entries : list (string * FileType)) (object : S3Object.t)
  : list (string * FileType) :=
  let name := S3Object.key object in
  let name := stripParent prefix name in
  if Js.includes name "/" then entries
  else if Js.truthy (Some name) then entries ++ [(name, File)]
  else entries.

(** The entries [readDirectory] builds from a listing result. *)
Definition directoryEntries (prefix : option string) (result : ListResult.t)
  : list (string * FileType) :=
  let entries := [] in
  let entries :=
    fold_left (pushFolder prefix) (ListResult.prefixes result) entries in
  fold_left (pushFile prefix) (ListResult.objects result) entries.

(** [S3FileSystemProvider.readDirectory], on the [bucket] and [key] that
    [parseS3xUri] extracted from the uri. *)
Definition readDirectory (w : World) (bucket key : string)
  : Outcome (list (string * FileType)) * World :=
  let prefix := if Js.truthy (Some key) then Some key else None in
  let calls := listCalls w ++ [(bucket, prefix, None)] in
  match listObjects (listCalls w) bucket prefix None with
  | Throw _ => (Throw Unavailable, mkWorld (s3Cache w) calls)
  | Ok result => (Ok (directoryEntries prefix result),
                  mkWorld (s3Cache w) calls)
  end.

End Consumers.

(* ===================================================================== *)
(** ** Specification-side notions *)
(* ===================================================================== *)

(** Deduplication by identity in the words of the contract: walk the
    sequence once, keep an item iff its identity was not seen before. *)
Fixpoint dedupFirst {A} (ident : A -> string) (seen : list string)
         (l : list A) : list A :=
  match l with
  | [] => []
  | x :: rest =>
      if bool_decide (ident x ∈ seen) then dedupFirst ident seen rest
      else x :: dedupFirst ident (ident x :: seen) rest
  end.

(** "Deduplicates by identity keeping the first occurrence's position and
    dropping later duplicates", for the merge of a [page] into an [old]
    sequence: no identity twice; the items are items of [old ++ page] in
    their order; the item kept for an identity is the first one carrying
    it; and an [old] sequence without repeats stays in front, unchanged,
    followed only by page items whose identity is not in [old]. *)
Definition firstWins {A} (ident : A -> string) (old page merged : list A)
  : Prop :=
  NoDup (map ident merged)
  /\ merged `sublist_of` (old ++ page)
  /\ (forall k,
        List.find (fun o => String.eqb (ident o) k) merged
        = List.find (fun o => String.eqb (ident o) k) (old ++ page))
  /\ (NoDup (map ident old) ->
      exists news,
        merged = old ++ news
        /\ news `sublist_of` page
        /\ NoDup (map ident news)
        /\ forall x, x ∈ page ->
             (ident x ∈ map ident news <-> ident x ∉ map ident old)).

(** A continuation token is present when it is not [undefined]. *)
Definition present (continuationToken : option string) : bool :=
  match continuationToken with Some _ => true | None => false end.

(** The data-model invariant of one entry: token present iff truncated. *)
Definition entryInvariant (e : CacheEntry.t) : Prop :=
  present (CacheEntry.continuationToken e) = CacheEntry.isTruncated e.

Definition cacheInvariant (c : S3Cache) : Prop :=
  map_Forall (fun _ e => entryInvariant e) (cache c).

(** The operations a client can apply to the cache. *)
Inductive CacheOp :=
| OpGet (now : Z) (bucket : string) (prefix : option string)
| OpSet (now : Z) (bucket : string) (objects : list S3Object.t)
        (prefixes : list S3Prefix.t) (isTruncated : bool)
        (continuationToken : option string) (prefix : option string)
| OpAppend (now : Z) (bucket : string) (objects : list S3Object.t)
           (prefixes : list S3Prefix.t) (isTruncated : bool)
           (continuationToken : option string) (prefix : option string)
| OpInvalidate (bucket : string) (prefix : option string)
| OpInvalidateAll.

Definition runOp (c : S3Cache) (op : CacheOp) : S3Cache :=
  match op with
  | OpGet now bucket prefix => snd (get c now bucket prefix)
  | OpSet now bucket objects prefixes isTruncated continuationToken prefix =>
      set c now bucket objects prefixes isTruncated continuationToken prefix
  | OpAppend now bucket objects prefixes isTruncated continuationToken
             prefix =>
      append c now bucket objects prefixes isTruncated continuationToken
             prefix
  | OpInvalidate bucket prefix => invalidate c bucket prefix
  | OpInvalidateAll => invalidateAll c
  end.

(** The page handed to [set] or [append] respects the invariant. *)
Definition pageWellFormed (op : CacheOp) : Prop :=
  match op with
  | OpSet _ _ _ _ isTruncated continuationToken _
  | OpAppend _ _ _ _ isTruncated continuationToken _ =>
      present continuationToken = isTruncated
  | _ => True
  end.

(** The sentinel pushed after the two loops of the materializer, as a list
    of at most one node. *)
Definition sentinel (bucket : string) (prefix : option string)
           (isTruncated : bool) (continuationToken : option string)
  : list BaseTreeNode :=
  if isTruncated && Js.truthy continuationToken
  then [LoadMoreNode bucket prefix (default "" continuationToken)]
  else [].

(** The load-more sentinels of a node sequence. *)
Definition loadMoreNodes (nodes : list BaseTreeNode) : list BaseTreeNode :=
  List.filter isLoadMoreNode nodes.

(** What both loop bodies of [readDirectory] maintain for the entries pushed
    so far: no empty name, and no file name with a slash in it. *)
Definition entriesOk (entries : list (string * FileType)) : Prop :=
  Forall (fun e => fst e <> "") entries
  /\ Forall (fun e => snd e = File -> Js.includes (fst e) "/" = false)
            entries.

(* ===================================================================== *)
(** ** [class S3Cache]: the remaining methods *)
(* ===================================================================== *)

Module JsString.

(** [s.includes(needle)] for a string needle: [needle] occurs at some
    offset of [s]; the empty needle occurs in every string. *)
Fixpoint includes (s needle : string) : bool :=
  String.prefix needle s
  || match s with
     | EmptyString => false
     | String _ s' => includes s' needle
     end.

End JsString.

(** [cleanup()], with [now] the one [Date.now()] it reads. *)
Definition cleanup (c : S3Cache) (now : Z) : S3Cache :=
  mkCache
    (filter (fun kv =>
               ¬ Is_true (now - CacheEntry.lastFetched (snd kv) >? ttl c))
            (cache c))
    (ttl c).

Section SearchInCache.

(** [String.prototype.toLowerCase], the host's: a parameter of the search. *)
Variable toLowerCase : string -> string.

(** [searchInCache]: the matches and the cache after the [get] it does. *)
Definition searchInCache (c : S3Cache) (now : Z) (bucket searchTerm : string)
           (prefix : option string) : list S3Object.t * S3Cache :=
  let '(entry, c1) := get c now bucket prefix in
  match entry with
  | None => ([], c1)
  | Some entry =>
      let lowerSearchTerm := toLowerCase searchTerm in
      (List.filter
         (fun obj =>
            JsString.includes (toLowerCase (S3Object.key obj))
                              lowerSearchTerm)
         (CacheEntry.objects entry),
       c1)
  end.

End SearchInCache.

(** [getAllCachedObjects(bucket)]; [entries] is [this.cache.entries()] in
    the iteration order of the [Map]. *)
Definition getAllCachedObjects (entries : list (string * CacheEntry.t))
           (bucket : string) : list S3Object.t :=
  let bucketPrefix := bucket +:+ ":" in
  let allObjects :=
    fold_left
      (fun allObjects kv =>
         if Js.startsWith (fst kv) bucketPrefix
         then allObjects ++ CacheEntry.objects (snd kv)
         else allObjects)
      entries [] in
  uniqueObjects allObjects.

(** A bucket name without a colon (no S3 bucket name has one). *)
Definition colonFree (bucket : string) : Prop := Js.includes bucket ":" = false.

(* ===================================================================== *)
(** ** [class S3Explorer]: refresh, children, load more *)
(* ===================================================================== *)

(** Modelled from the tests: an item of [listBuckets()] ([s3/listing.ts] is
    not among the sources; the tests read [buckets[0].name]). *)
Module S3Bucket.
Record t := mk { name : string }.
End S3Bucket.

Definition createBucketNode (bucket : S3Bucket.t) : BaseTreeNode :=
  BucketNode (S3Bucket.name bucket).

(** [refresh(element)]: the cache afterwards and the payload fired on
    [_onDidChangeTreeData]. *)
Definition refresh (c : S3Cache) (element : option BaseTreeNode)
  : S3Cache * option BaseTreeNode :=
  let c' :=
    match element with
    | Some (BucketNode bucket) => invalidate c bucket None
    | Some (PrefixNode bucket prefix) => invalidate c bucket (Some prefix)
    | Some _ => c
    | None => invalidateAll c
    end in
  (c', element).

(** The listing key a node's children are read under: the bucket root for
    a bucket node, the folder for a folder node, none for the other nodes
    and for the tree root. *)
Definition listedKey (element : option BaseTreeNode)
  : option (string * option string) :=
  match element with
  | Some (BucketNode bucket) => Some (bucket, None)
  | Some (PrefixNode bucket prefix) => Some (bucket, Some prefix)
  | _ => None
  end.

(** What [getChildren] shows to the user when it catches an error. *)
Inductive Notification :=
| AuthenticationFailed
| ErrorLoadingData (e : Error).

(** How [loadMore] ends: it fires the change event or shows the error. *)
Inductive LoadMoreEnd :=
| TreeChanged
| ErrorLoadingMore (e : Error).

Section Explorer.

Variable listObjects :
  list ListCall -> string -> option string -> option string ->
  Outcome ListResult.t.

(** [listBuckets()], an external collaborator like [listObjects]. *)
Variable listBuckets : list ListCall -> Outcome (list S3Bucket.t).

(** [S3Error.isAuthError] ([types.ts], not among the sources). *)
Variable isAuthError : Error -> bool.

Definition getBuckets (w : World) : Outcome (list BaseTreeNode) * World :=
  match listBuckets (listCalls w) with
  | Ok buckets => (Ok (map createBucketNode buckets), w)
  | Throw e => (Throw e, w)
  end.

(** [getChildren(element)]: the children, the world afterwards and the
    error message shown, if any. *)
Definition getChildren (w : World) (now later : Z)
           (element : option BaseTreeNode)
  : list BaseTreeNode * World * option Notification :=
  let attempt :=
    match element with
    | None => getBuckets w
    | Some (BucketNode bucket) =>
        getBucketContents listObjects w now later bucket None
    | Some (PrefixNode bucket prefix) =>
        getPrefixContents listObjects w now later bucket prefix None
    | Some (LoadMoreNode _ _ _) => (Ok [], w)
    | Some (ObjectNode _ _ _ _) => (Ok [], w)
    end in
  match attempt with
  | (Ok nodes, w') => (nodes, w', None)
  | (Throw error, w') =>
      (if isAuthError error
       then ([], w', Some AuthenticationFailed)
       else ([], w', Some (ErrorLoadingData error)))
  end.

(** [loadMore(node)] on a [LoadMoreNode] with these three fields. *)
Definition loadMore (w : World) (now later : Z) (bucket : string)
           (prefix : option string) (continuationToken : string)
  : World * LoadMoreEnd :=
  let attempt :=
    if Js.truthy prefix
    then getPrefixContents listObjects w now later bucket (default "" prefix)
                           (Some continuationToken)
    else getBucketContents listObjects w now later bucket
                           (Some continuationToken) in
  match attempt with
  | (Ok _, w') => (w', TreeChanged)
  | (Throw error, w') => (w', ErrorLoadingMore error)
  end.

End Explorer.

(* ===================================================================== *)
(** ** [class S3FileSystemProvider]: stat, createDirectory, writeFile *)
(* ===================================================================== *)

(** The errors of [vscode.FileSystemError] the provider throws. *)
Module FileSystemError.
Inductive t :=
| FileNotFound
| FileExists
| FileIsADirectory
| NoPermissions (message : string)
| Unavailable.
End FileSystemError.

(** A thrown value, as far as the [catch] blocks tell them apart: an
    [S3Error] with its [code], a [vscode.FileSystemError], anything else. *)
Inductive Exception :=
| ExS3Error (code : string)
| ExFileSystemError (e : FileSystemError.t)
| ExOther (message : string).

(** [error instanceof S3Error && error.code === "NoSuchKey"] *)
Definition isNoSuchKey (error : Exception) : bool :=
  match error with
  | ExS3Error code => String.eqb code "NoSuchKey"
  | _ => false
  end.

(** [error instanceof vscode.FileSystemError] *)
Definition isFileSystemError (error : Exception) : bool :=
  match error with
  | ExFileSystemError _ => true
  | _ => false
  end.

Inductive Settled (A : Type) :=
| Fulfilled (a : A)
| Rejected (error : Exception).
Arguments Fulfilled {A} a.
Arguments Rejected {A} error.

(** The fields of the [getObjectMetadata] result the provider reads;
    [lastModified] is the [getTime()] of the date. *)
Module ObjectMetadata.
Record t := mk { contentLength : option Z; lastModified : option Z }.
End ObjectMetadata.

Module FileStat.
Record t := mk { type : FileType; ctime : Z; mtime : Z; size : Z }.
End FileStat.

(** A call to the storage operations of [s3/ops.ts] and [s3/listing.ts]. *)
Inductive RemoteCall :=
| GetObjectMetadata (bucket key : string)
| PutObject (bucket key : string) (content : list Byte.byte)
            (contentType : option string)
| DeleteObject (bucket key : string)
| ListObjects (bucket : string) (prefix continuationToken : option string).

Inductive FileChangeType := Changed | Created | Deleted.

(** A [vscode.FileChangeEvent]; the uri is its parsed bucket and key. *)
Definition FileChangeEvent : Type := FileChangeType * (string * string).

(** What the provider acts on: the storage calls issued so far and the
    events handed to [_fireSoon] (the 5 ms timer that flushes them is not
    modelled). *)
Record Fs := mkFs {
  remoteCalls : list RemoteCall;
  firedSoon : list FileChangeEvent
}.

(** [x || fallback] on an optional number: [undefined] and [0] are falsy. *)
Definition orNumber (x : option Z) (fallback : Z) : Z :=
  match x with
  | Some n => if n =? 0 then fallback else n
  | None => fallback
  end.

(** Asynchronous provider code: it runs on the provider state and settles. *)
Definition Async (A : Type) : Type := Fs -> Settled A * Fs.

Definition ret {A} (a : A) : Async A := fun fs => (Fulfilled a, fs).

Definition throw {A} (error : Exception) : Async A :=
  fun fs => (Rejected error, fs).

Definition bind {A B} (m : Async A) (k : A -> Async B) : Async B :=
  fun fs =>
    match m fs with
    | (Fulfilled a, fs') => k a fs'
    | (Rejected error, fs') => (Rejected error, fs')
    end.

(** [try { m } catch (error) { handler }] *)
Definition tryCatch {A} (m : Async A) (handler : Exception -> Async A)
  : Async A :=
  fun fs =>
    match m fs with
    | (Fulfilled a, fs') => (Fulfilled a, fs')
    | (Rejected error, fs') => handler error fs'
    end.

(** [this._fireSoon(...events)] *)
Definition fireSoon (events : list FileChangeEvent) : Async unit :=
  fun fs => (Fulfilled tt, mkFs (remoteCalls fs) (firedSoon fs ++ events)).

Declare Scope async_scope.
Delimit Scope async_scope with async.
Notation "x <- m ;; k" := (bind m (fun x => k))
  (at level 100, m at next level, right associativity) : async_scope.
Notation "m ;; k" := (bind m (fun _ => k))
  (at level 100, right associativity) : async_scope.

Section Provider.

Local Open Scope async_scope.

(** The storage operations, external collaborators: what they answer may
    depend on every call issued before. *)
Variable getObjectMetadataRemote :
  list RemoteCall -> string -> string -> Settled ObjectMetadata.t.
Variable putObjectRemote :
  list RemoteCall -> string -> string -> list Byte.byte -> option string ->
  Settled unit.

Definition getObjectMetadata (bucket key : string)
  : Async ObjectMetadata.t :=
  fun fs =>
    (getObjectMetadataRemote (remoteCalls fs) bucket key,
     mkFs (remoteCalls fs ++ [GetObjectMetadata bucket key]) (firedSoon fs)).

Definition putObject (bucket key : string) (content : list Byte.byte)
           (contentType : option string) : Async unit :=
  fun fs =>
    (putObjectRemote (remoteCalls fs) bucket key content contentType,
     mkFs (remoteCalls fs ++ [PutObject bucket key content contentType])
          (firedSoon fs)).

(** [stat(uri)] on the parsed [bucket] and [key]; [now1] and [now2] are the
    two [Date.now()] readings for [ctime] and [mtime]. *)
Definition stat (now1 now2 : Z) (bucket key : string) : Async FileStat.t :=
  tryCatch
    (if negb (Js.truthy (Some key)) || String.eqb key ""
     then ret (FileStat.mk Directory now1 now2 0)
     else if Js.endsWith key "/"
     then ret (FileStat.mk Directory now1 now2 0)
     else
       metadata <- getObjectMetadata bucket key ;;
       ret (FileStat.mk File
              (orNumber (ObjectMetadata.lastModified metadata) now1)
              (orNumber (ObjectMetadata.lastModified metadata) now2)
              (orNumber (ObjectMetadata.contentLength metadata) 0)))
    (fun error =>
       if isNoSuchKey error
       then throw (ExFileSystemError FileSystemError.FileNotFound)
       else throw (ExFileSystemError FileSystemError.Unavailable)).

(** [createDirectory(uri)] *)
Definition createDirectory (bucket key : string) : Async unit :=
  tryCatch
    (if negb (Js.truthy (Some key))
     then throw (ExFileSystemError
                   (FileSystemError.NoPermissions
                      "Cannot create buckets through filesystem"))
     else
       let folderKey := if Js.endsWith key "/" then key else key +:+ "/" in
       putObject bucket folderKey [] (Some "application/x-directory") ;;
       fireSoon [(Created, (bucket, key))])
    (fun error => throw (ExFileSystemError FileSystemError.Unavailable)).

(** [writeFile(uri, content, { create, overwrite })] *)
Definition writeFile (bucket key : string) (content : list Byte.byte)
           (create overwrite : bool) : Async unit :=
  tryCatch
    (if negb (Js.truthy (Some key))
     then throw (ExFileSystemError FileSystemError.FileIsADirectory)
     else
       (if negb overwrite
        then tryCatch
               (getObjectMetadata bucket key ;;
                throw (ExFileSystemError FileSystemError.FileExists))
               (fun error =>
                  if negb (isNoSuchKey error) then throw error else ret tt)
        else ret tt) ;;
       (if negb create
        then tryCatch
               (getObjectMetadata bucket key ;; ret tt)
               (fun error =>
                  if isNoSuchKey error
                  then throw (ExFileSystemError FileSystemError.FileNotFound)
                  else throw error)
        else ret tt) ;;
       putObject bucket key content None ;;
       fireSoon [(Changed, (bucket, key))])
    (fun error =>
       if isFileSystemError error then throw error
       else throw (ExFileSystemError FileSystemError.Unavailable)).

End Provider.

(** The [putObject] calls among the storage calls issued. *)
Definition putCalls (calls : list RemoteCall) : list RemoteCall :=
  List.filter (fun call => match call with PutObject _ _ _ _ => true
                                      | _ => false end) calls.

(* ===================================================================== *)
(** ** [S3FileSystemProvider.delete] *)
(* ===================================================================== *)

(** [arr.slice(i, j)] for [0 <= i <= j] *)
Definition sliceRange {A} (i j : nat) (arr : list A) : list A :=
  take (j - i) (drop i arr).

(** The batches of
    [for (let i = 0; i < keys.length; i += 1000) keys.slice(i, i + 1000)],
    in loop order; the loop runs at most [keys.length] times, which is the
    fuel [deleteBatches] gives it. *)
Fixpoint batchesFrom (fuel i : nat) (keys : list string)
  : list (list string) :=
  match fuel with
  | O => []
  | S fuel' =>
      if (i <? length keys)%nat
      then sliceRange i (i + 1000) keys :: batchesFrom fuel' (i + 1000) keys
      else []
  end.

Definition deleteBatches (keys : list string) : list (list string) :=
  batchesFrom (length keys) 0 keys.

(** The methods of this part live in a module of the class's name, so that
    [delete] keeps its name beside the [delete] of finite maps. *)
Module S3FileSystemProvider.

Section ProviderDelete.

Local Open Scope async_scope.

Variable getObjectMetadataRemote :
  list RemoteCall -> string -> string -> Settled ObjectMetadata.t.
Variable listObjectsRemote :
  list RemoteCall -> string -> option string -> option string ->
  Settled ListResult.t.
Variable deleteObjectRemote : list RemoteCall -> string -> string ->
                              Settled unit.

(** Which rejection a [Promise.all] reports when several of its promises
    reject is a matter of timing; this is the one that wins. *)
Variable firstToReject : list Exception -> Exception.

Definition listObjectsAsync (bucket : string)
           (prefix continuationToken : option string)
  : Async ListResult.t :=
  fun fs =>
    (listObjectsRemote (remoteCalls fs) bucket prefix continuationToken,
     mkFs (remoteCalls fs ++ [ListObjects bucket prefix continuationToken])
          (firedSoon fs)).

Definition deleteObject (bucket key : string) : Async unit :=
  fun fs =>
    (deleteObjectRemote (remoteCalls fs) bucket key,
     mkFs (remoteCalls fs ++ [DeleteObject bucket key]) (firedSoon fs)).

(** Starting every operation of [ops] in order, as [batch.map(...)] does:
    the rejections seen and the state once all calls are issued. *)
Fixpoint startAll (ops : list (Async unit)) (fs : Fs)
  : list Exception * Fs :=
  match ops with
  | [] => ([], fs)
  | op :: rest =>
      let '(r, fs') := op fs in
      let '(errors, fs'') := startAll rest fs' in
      (match r with
       | Fulfilled _ => errors
       | Rejected error => error :: errors
       end, fs'')
  end.

(** [await Promise.all(ops)] *)
Definition promiseAll (ops : list (Async unit)) : Async unit :=
  fun fs =>
    let '(errors, fs') := startAll ops fs in
    match errors with
    | [] => (Fulfilled tt, fs')
    | _ :: _ => (Rejected (firstToReject errors), fs')
    end.

(** The batch loop of [delete]: one [Promise.all] per batch, in order. *)
Fixpoint deleteInBatches (bucket : string) (batches : list (list string))
  : Async unit :=
  match batches with
  | [] => ret tt
  | batch :: rest =>
      promiseAll (map (fun k => deleteObject bucket k) batch) ;;
      deleteInBatches bucket rest
  end.

(** [readDirectory] as [delete] calls it, on the provider state: the same
    listing call and the same [directoryEntries]. *)
Definition readDirectoryAsync (bucket key : string)
  : Async (list (string * FileType)) :=
  tryCatch
    (let prefix := if Js.truthy (Some key) then Some key else None in
     result <- listObjectsAsync bucket prefix None ;;
     ret (directoryEntries prefix result))
    (fun error => throw (ExFileSystemError FileSystemError.Unavailable)).

(** [delete(uri, { recursive })] *)
Definition delete (now1 now2 : Z) (bucket key : string) (recursive : bool)
  : Async unit :=
  tryCatch
    (if negb (Js.truthy (Some key))
     then throw (ExFileSystemError
                   (FileSystemError.NoPermissions
                      "Cannot delete buckets through filesystem"))
     else
       st <- stat getObjectMetadataRemote now1 now2 bucket key ;;
       (match FileStat.type st with
        | Directory =>
            (if negb recursive
             then entries <- readDirectoryAsync bucket key ;;
                  if (0 <? length entries)%nat
                  then throw (ExFileSystemError
                                (FileSystemError.NoPermissions
                                   "Directory not empty"))
                  else ret tt
             else ret tt) ;;
            (if recursive
             then result <- listObjectsAsync bucket (Some key) None ;;
                  let keysToDelete := [] in
                  let keysToDelete :=
                    Js.pushEach S3Object.key keysToDelete
                                (ListResult.objects result) in
                  let keysToDelete :=
                    Js.pushEach S3Prefix.prefix keysToDelete
                                (ListResult.prefixes result) in
                  if (0 <? length keysToDelete)%nat
                  then deleteInBatches bucket (deleteBatches keysToDelete)
                  else ret tt
             else ret tt) ;;
            tryCatch
              (deleteObject bucket
                            (if Js.endsWith key "/" then key else key +:+ "/"))
              (fun error => ret tt)
        | File => deleteObject bucket key
        end) ;;
       fireSoon [(Deleted, (bucket, key))])
    (fun error =>
       if isFileSystemError error then throw error
       else throw (ExFileSystemError FileSystemError.Unavailable)).

End ProviderDelete.

End S3FileSystemProvider.

(** The [deleteObject] calls among the storage calls issued. *)
Definition deleteCalls (calls : list RemoteCall) : list RemoteCall :=
  List.filter (fun call => match call with DeleteObject _ _ => true
                                      | _ => false end) calls.

(* ===================================================================== *)
(** ** Listing cache: freshness and invalidation *)
(* ===================================================================== *)

Section CacheFacts.

Implicit Types (c : S3Cache) (bucket : string) (prefix : option string).

Lemma get_absent c now bucket prefix :
  cache c !! getCacheKey bucket prefix = None ->
  get c now bucket prefix = (None, c).
Proof. intros H. unfold get. by rewrite H. Qed.

Lemma get_fresh c now bucket prefix entry :
  cache c !! getCacheKey bucket prefix = Some entry ->
  now - CacheEntry.lastFetched entry <= ttl c ->
  get c now bucket prefix = (Some entry, c).
Proof.
  intros H Hfresh. unfold get. rewrite H.
  destruct (Z.gtb_spec (now - CacheEntry.lastFetched entry) (ttl c)); [lia|done].
Qed.

Lemma get_stale c now bucket prefix entry :
  cache c !! getCacheKey bucket prefix = Some entry ->
  now - CacheEntry.lastFetched entry > ttl c ->
  get c now bucket prefix
  = (None, mkCache (delete (getCacheKey bucket prefix) (cache c)) (ttl c)).
Proof.
  intros H Hstale. unfold get. rewrite H.
  destruct (Z.gtb_spec (now - CacheEntry.lastFetched entry) (ttl c)); [done|lia].
Qed.

(** Whatever [get] answers with is an entry stored under the key, and the
    cache it leaves behind only ever lost that key. *)
Lemma get_Some_inv c now bucket prefix entry :
  fst (get c now bucket prefix) = Some entry ->
  cache c !! getCacheKey bucket prefix = Some entry
  /\ snd (get c now bucket prefix) = c.
Proof.
  unfold get. destruct (cache c !! getCacheKey bucket prefix) as [e|]; [|done].
  destruct (_ >? _); simpl; [done|]. by intros [= ->].
Qed.

Lemma fold_delete_lookup (keys : list string) (m : gmap string CacheEntry.t)
      (k : string) :
  fold_left (fun m parentKey => delete parentKey m) keys m !! k
  = if bool_decide (k ∈ keys) then None else m !! k.
Proof.
  revert m. induction keys as [|k' keys IH]; intros m; simpl; [done|].
  rewrite IH. destruct (decide (k = k')) as [->|Hne].
  - rewrite lookup_delete_eq. rewrite (bool_decide_eq_true_2 (k' ∈ k' :: keys));
      [by destruct (bool_decide _)|by left].
  - rewrite lookup_delete_ne by done.
    apply (f_equal (fun b : bool => if b then None else m !! k)).
    apply bool_decide_ext. rewrite elem_of_cons. intuition congruence.
Qed.

Lemma split_nonempty ch s : Js.split ch s <> [].
Proof. destruct s as [|a s]; simpl; [done|]. by repeat case_match. Qed.

(** The last key of the parent loop is always the bucket root. *)
Lemma root_in_parentKeys bucket parts :
  parts <> [] -> getCacheKey bucket None ∈ parentKeys bucket parts.
Proof.
  intros Hne. unfold parentKeys.
  apply (list_elem_of_fmap_2' _ _ 0%nat).
  - apply list_elem_of_In. apply -> in_rev. apply in_seq.
    destruct parts; [done|simpl; lia].
  - done.
Qed.

End CacheFacts.

(** C2. Freshness: a [get] on a cached key whose entry is older than the
    ttl ([now - lastFetched > ttl]) answers absent and removes exactly that
    entry, so [getStats().size] drops by one; a [get] within the ttl
    ([now - lastFetched <= ttl]) answers the stored entry and leaves the
    cache as it was. *)
Theorem get_freshness (c : S3Cache) (now : Z) (bucket : string)
        (prefix : option string) (entry : CacheEntry.t) :
  cache c !! getCacheKey bucket prefix = Some entry ->
  (now - CacheEntry.lastFetched entry > ttl c ->
   fst (get c now bucket prefix) = None
   /\ cache (snd (get c now bucket prefix)) !! getCacheKey bucket prefix = None
   /\ S (Stats.size (getStats (snd (get c now bucket prefix))))
      = Stats.size (getStats c)
   /\ (forall k, k <> getCacheKey bucket prefix ->
         cache (snd (get c now bucket prefix)) !! k = cache c !! k))
  /\ (now - CacheEntry.lastFetched entry <= ttl c ->
      get c now bucket prefix = (Some entry, c)).
Proof.
  intros Hin. split.
  - intros Hstale. rewrite (get_stale _ _ _ _ _ Hin Hstale). simpl.
    split; [done|]. split; [apply lookup_delete_eq|]. split.
    + rewrite map_size_delete, Hin.
      pose proof (map_size_non_empty_iff (cache c)) as Hsz.
      assert (cache c <> ∅) as Hne by (intros E; rewrite E in Hin; done).
      apply Hsz in Hne. lia.
    + intros k Hk. by apply lookup_delete_ne.
  - intros Hfresh. by apply get_fresh.
Qed.

Lemma get_freshness_witness :
  let c := set (newCache DEFAULT_TTL) 1000 "bkt" [] [] false None None in
  let entry := CacheEntry.mk [] [] 1000 false None in
  cache c !! getCacheKey "bkt" None = Some entry
  /\ (fst (get c 400000 "bkt" None) = None
      /\ S (Stats.size (getStats (snd (get c 400000 "bkt" None))))
         = Stats.size (getStats c))
  /\ get c 301000 "bkt" None = (Some entry, c).
Proof.
  pose (c := set (newCache DEFAULT_TTL) 1000 "bkt" [] [] false None None).
  pose (entry := CacheEntry.mk [] [] 1000 false None).
  assert (cache c !! getCacheKey "bkt" None = Some entry) as Hin
      by (vm_compute; reflexivity).
  destruct (get_freshness c 400000 "bkt" None entry Hin) as [Hstale _].
  destruct (get_freshness c 301000 "bkt" None entry Hin) as [_ Hfresh].
  split; [exact Hin|]. split.
  - destruct Hstale as (H1 & _ & H3 & _); [vm_compute; reflexivity|].
    split; [exact H1|exact H3].
  - apply Hfresh. vm_compute. discriminate.
Defined.

(** What the prefix branch of [invalidate] does remove for every non-empty
    prefix: the exact key and the bucket root. *)
Lemma invalidate_exact_and_root (c : S3Cache) (bucket p : string) :
  Js.truthy (Some p) = true ->
  cache (invalidate c bucket (Some p)) !! getCacheKey bucket (Some p) = None
  /\ cache (invalidate c bucket (Some p)) !! getCacheKey bucket None = None.
Proof.
  intros Hp. unfold invalidate. rewrite Hp. simpl.
  rewrite !fold_delete_lookup. split.
  - case_bool_decide; [done|apply lookup_delete_eq].
  - rewrite bool_decide_eq_true_2; [done|].
    apply root_in_parentKeys, split_nonempty.
Qed.

(** C1. Ancestor cascade, evaluated on the scenario of the contract: with
    entries cached for [(b, "")], [(b, "a/")], [(b, "a/c/")] and
    [(b, "z/")], [invalidate(b, "a/c/x.txt")] deletes the keys
    ["b:a/c/x.txt"], ["b:a/c"], ["b:a"] and ["b:"]: the root entry goes and
    [z/] stays, but the entries of the ancestors [a/] and [a/c/], which are
    cached under keys ending in a slash, are still there. *)
Theorem invalidate_misses_folder_ancestors :
  let entry := CacheEntry.mk [] [] 0 false None in
  let page := fun p c => set c 0 "b" [] [] false None (Some p) in
  let c :=
    page "z/" (page "a/c/" (page "a/" (page "" (newCache DEFAULT_TTL)))) in
  let c' := invalidate c "b" (Some "a/c/x.txt") in
  parentKeys "b" (Js.split "/" "a/c/x.txt") = ["b:a/c"; "b:a"; "b:"]
  /\ cache c !! getCacheKey "b" (Some "a/") = Some entry
  /\ cache c !! getCacheKey "b" (Some "a/c/") = Some entry
  /\ cache c' !! getCacheKey "b" (Some "") = None
  /\ cache c' !! getCacheKey "b" (Some "a/") = Some entry
  /\ cache c' !! getCacheKey "b" (Some "a/c/") = Some entry
  /\ cache c' !! getCacheKey "b" (Some "z/") = Some entry
  /\ Stats.size (getStats c) = 4%nat
  /\ Stats.size (getStats c') = 3%nat.
Proof.
  vm_compute. repeat split.
Qed.

(* ===================================================================== *)
(** ** Pagination accumulator: deduplication by identity *)
(* ===================================================================== *)

Section Dedup.

Context {A : Type} (ident : A -> string).

Implicit Types (l m : list A) (seen : list string) (k : string).

Lemma findIndex_bounds (p : A -> bool) l :
  -1 <= Js.findIndex p l < Z.of_nat (length l).
Proof.
  induction l as [|x l IH]; simpl; [lia|].
  destruct (p x); [lia|].
  destruct (Z.ltb_spec (Js.findIndex p l) 0); lia.
Qed.

(** The index of the first hit equals the position of a hit exactly when
    nothing before that position is a hit. *)
Lemma findIndex_at_hit (p : A -> bool) pre x rest :
  p x = true ->
  (Js.findIndex p (pre ++ x :: rest) =? Z.of_nat (length pre))
  = negb (existsb p pre).
Proof.
  intros Hx. induction pre as [|a pre IH].
  - simpl. by rewrite Hx.
  - cbn [app Js.findIndex length existsb]. rewrite Nat2Z.inj_succ.
    destruct (p a); cbn [negb orb].
    + destruct (Z.eqb_spec 0 (Z.succ (Z.of_nat (length pre)))); [lia|done].
    + rewrite <- IH.
      pose proof (findIndex_bounds p (pre ++ x :: rest)).
      destruct (Z.ltb_spec (Js.findIndex p (pre ++ x :: rest)) 0);
        repeat match goal with
               | |- context [?a =? ?b] => destruct (Z.eqb_spec a b)
               end; try done; lia.
Qed.

Lemma existsb_ident k l :
  existsb (fun o => String.eqb (ident o) k) l
  = bool_decide (k ∈ map ident l).
Proof.
  induction l as [|x l IH]; simpl; [done|].
  rewrite IH. destruct (String.eqb_spec (ident x) k) as [->|Hne]; simpl.
  - symmetry. apply bool_decide_eq_true_2. by left.
  - apply bool_decide_ext. rewrite elem_of_cons. intuition congruence.
Qed.

(** The seen-list of [dedupFirst] only matters as a set. *)
Lemma dedupFirst_ext seen1 seen2 l :
  (forall k, k ∈ seen1 <-> k ∈ seen2) ->
  dedupFirst ident seen1 l = dedupFirst ident seen2 l.
Proof.
  revert seen1 seen2. induction l as [|x l IH]; intros s1 s2 Hs; simpl; [done|].
  rewrite (bool_decide_ext _ _ (Hs (ident x))).
  case_bool_decide.
  - by apply IH.
  - f_equal. apply IH. intros k. rewrite !elem_of_cons, Hs. done.
Qed.

(** The index-based filter of the source is [dedupFirst]. *)
Lemma filterFrom_dedupFirst l pre seen :
  (forall k, k ∈ seen <-> k ∈ map ident pre) ->
  Js.filterFrom
    (fun x index arr =>
       Js.findIndex (fun o => String.eqb (ident o) (ident x)) arr =? index)
    (pre ++ l) (Z.of_nat (length pre)) l
  = dedupFirst ident seen l.
Proof.
  revert pre seen. induction l as [|x l IH]; intros pre seen Hs; simpl; [done|].
  rewrite findIndex_at_hit by apply String.eqb_refl.
  rewrite existsb_ident, <- (bool_decide_ext _ _ (Hs (ident x))).
  replace (Z.of_nat (length pre) + 1) with (Z.of_nat (length (pre ++ [x])))
    by (rewrite length_app; simpl; lia).
  replace (pre ++ x :: l) with ((pre ++ [x]) ++ l) by (by rewrite <- app_assoc).
  case_bool_decide as Hin; simpl.
  - apply IH. intros k. rewrite map_app, elem_of_app, <- Hs. simpl.
    rewrite list_elem_of_singleton. split; [tauto|]. intros [?| ->]; done.
  - f_equal. apply IH. intros k. rewrite map_app, elem_of_app, elem_of_cons, <- Hs.
    simpl. rewrite list_elem_of_singleton. tauto.
Qed.

Lemma filterIdx_dedupFirst l :
  Js.filterIdx
    (fun x index arr =>
       Js.findIndex (fun o => String.eqb (ident o) (ident x)) arr =? index)
    l
  = dedupFirst ident [] l.
Proof. apply (filterFrom_dedupFirst l [] []). done. Qed.

(** Identities that survive: those of [l] not seen before. *)
Lemma elem_of_dedupFirst_idents seen l k :
  k ∈ map ident (dedupFirst ident seen l) <-> k ∈ map ident l /\ k ∉ seen.
Proof.
  revert seen. induction l as [|x l IH]; intros seen; simpl.
  - rewrite elem_of_nil. tauto.
  - case_bool_decide as Hin; simpl.
    + rewrite IH, elem_of_cons. split; [tauto|].
      intros [[->|?] ?]; [done|tauto].
    + rewrite !elem_of_cons, IH, elem_of_cons.
      split; [intros [->|[? ?]]; tauto|].
      intros [[->|?] ?]; [tauto|].
      destruct (decide (k = ident x)); tauto.
Qed.

Lemma dedupFirst_NoDup seen l : NoDup (map ident (dedupFirst ident seen l)).
Proof.
  revert seen. induction l as [|x l IH]; intros seen; simpl; [constructor|].
  case_bool_decide; simpl; [apply IH|].
  constructor; [|apply IH].
  rewrite elem_of_dedupFirst_idents, elem_of_cons. tauto.
Qed.

Lemma dedupFirst_sublist seen l : dedupFirst ident seen l `sublist_of` l.
Proof.
  revert seen. induction l as [|x l IH]; intros seen; simpl; [done|].
  case_bool_decide; [apply sublist_cons, IH|apply sublist_skip, IH].
Qed.

(** A sequence without repeated identities, none of them seen, is left
    alone. *)
Lemma dedupFirst_id seen l :
  NoDup (map ident l) -> (forall k, k ∈ map ident l -> k ∉ seen) ->
  dedupFirst ident seen l = l.
Proof.
  revert seen. induction l as [|x l IH]; intros seen Hnd Hfresh; simpl; [done|].
  simpl in Hnd. apply NoDup_cons in Hnd as [Hx Hnd].
  rewrite bool_decide_eq_false_2 by (apply Hfresh; simpl; by left).
  f_equal. apply IH; [done|].
  intros k Hk. rewrite elem_of_cons. intros [->|Hs]; [done|].
  revert Hs. apply Hfresh. simpl. by right.
Qed.

(** Items whose identities were all seen are all dropped. *)
Lemma dedupFirst_all_seen seen l :
  (forall k, k ∈ map ident l -> k ∈ seen) -> dedupFirst ident seen l = [].
Proof.
  intros Hall. induction l as [|x l IH]; simpl; [done|].
  rewrite bool_decide_eq_true_2 by (apply Hall; simpl; by left).
  apply IH. intros k Hk. apply Hall. simpl. by right.
Qed.

Lemma dedupFirst_app seen l m :
  dedupFirst ident seen (l ++ m)
  = dedupFirst ident seen l ++ dedupFirst ident (map ident l ++ seen) m.
Proof.
  revert seen. induction l as [|x l IH]; intros seen; simpl; [done|].
  case_bool_decide as Hin; simpl; rewrite IH.
  - f_equal. apply dedupFirst_ext. intros k. rewrite elem_of_cons, !elem_of_app.
    split; [tauto|]. intros [->|?]; tauto.
  - do 2 f_equal. apply dedupFirst_ext. intros k.
    rewrite elem_of_cons, !elem_of_app, elem_of_cons. tauto.
Qed.

(** Deduplicating against a seen-list is filtering the plain
    deduplication. *)
Lemma dedupFirst_filter seen1 seen2 l :
  dedupFirst ident (seen1 ++ seen2) l
  = filter (fun x => ident x ∉ seen1) (dedupFirst ident seen2 l).
Proof.
  revert seen2. induction l as [|x l IH]; intros seen2; simpl; [done|].
  destruct (decide (ident x ∈ seen2)) as [H2|H2].
  - rewrite !bool_decide_eq_true_2 by (rewrite ?elem_of_app; tauto).
    apply IH.
  - rewrite (bool_decide_eq_false_2 (ident x ∈ seen2)) by done.
    destruct (decide (ident x ∈ seen1)) as [H1|H1].
    + rewrite bool_decide_eq_true_2 by (rewrite elem_of_app; tauto).
      rewrite filter_cons_False by tauto.
      rewrite <- IH. apply dedupFirst_ext. intros k.
      rewrite !elem_of_app, elem_of_cons. split; [tauto|].
      intros [?|[->|?]]; tauto.
    + rewrite bool_decide_eq_false_2 by (rewrite elem_of_app; tauto).
      rewrite filter_cons_True by done. f_equal.
      rewrite <- IH. apply dedupFirst_ext. intros k.
      rewrite elem_of_cons, !elem_of_app, elem_of_cons. tauto.
Qed.

(** The first item carrying a given identity is the same before and
    after deduplication. *)
Lemma dedupFirst_find seen l k :
  k ∉ seen ->
  List.find (fun o => String.eqb (ident o) k) (dedupFirst ident seen l)
  = List.find (fun o => String.eqb (ident o) k) l.
Proof.
  revert seen. induction l as [|x l IH]; intros seen Hk; simpl; [done|].
  case_bool_decide as Hin; simpl.
  - destruct (String.eqb_spec (ident x) k) as [Heq|Hne]; [|by apply IH].
    by rewrite Heq in Hin.
  - destruct (String.eqb_spec (ident x) k) as [Heq|Hne]; [done|].
    apply IH. rewrite elem_of_cons. intros [Heq|?]; [by symmetry in Heq|done].
Qed.

(** Merging the same page a second time changes nothing. *)
Lemma dedupFirst_merge_again l page :
  dedupFirst ident [] (dedupFirst ident [] (l ++ page) ++ page)
  = dedupFirst ident [] (l ++ page).
Proof.
  rewrite (dedupFirst_app [] (dedupFirst _ _ _)).
  rewrite (dedupFirst_id [] (dedupFirst _ _ _)).
  - rewrite (dedupFirst_all_seen (_ ++ []) page); [by rewrite app_nil_r|].
    intros k Hk. rewrite app_nil_r, elem_of_dedupFirst_idents, map_app, elem_of_app.
    split; [tauto|apply not_elem_of_nil].
  - apply dedupFirst_NoDup.
  - intros k _. apply not_elem_of_nil.
Qed.

(** A new page never displaces what was there: the merge is the old
    sequence deduplicated, followed by the page's first occurrences of
    identities that are not in the old sequence. *)
Lemma dedupFirst_merge_split l page :
  dedupFirst ident [] (l ++ page)
  = dedupFirst ident [] l
    ++ filter (fun x => ident x ∉ map ident l) (dedupFirst ident [] page).
Proof. by rewrite dedupFirst_app, dedupFirst_filter. Qed.

End Dedup.

Lemma uniqueObjects_dedupFirst (all : list S3Object.t) :
  uniqueObjects all = dedupFirst S3Object.key [] all.
Proof. apply filterIdx_dedupFirst. Qed.

Lemma uniquePrefixes_dedupFirst (all : list S3Prefix.t) :
  uniquePrefixes all = dedupFirst S3Prefix.prefix [] all.
Proof. apply filterIdx_dedupFirst. Qed.

Lemma dedupFirst_firstWins {A} (ident : A -> string) (old page : list A) :
  firstWins ident old page (dedupFirst ident [] (old ++ page)).
Proof.
  split; [apply dedupFirst_NoDup|].
  split; [apply dedupFirst_sublist|].
  split; [intros k; apply dedupFirst_find, not_elem_of_nil|].
  intros Hold.
  exists (filter (fun x => ident x ∉ map ident old) (dedupFirst ident [] page)).
  split.
  { rewrite dedupFirst_merge_split. f_equal.
    apply dedupFirst_id; [done|]. intros k _. apply not_elem_of_nil. }
  split.
  { etrans; [apply sublist_filter|apply dedupFirst_sublist]. }
  rewrite <- (dedupFirst_filter ident (map ident old) []).
  split; [apply dedupFirst_NoDup|].
  intros x Hx. rewrite elem_of_dedupFirst_idents, app_nil_r.
  split; [tauto|]. intros Hn. split; [|done].
  apply list_elem_of_fmap. eauto.
Qed.

Lemma append_existing (c : S3Cache) (now : Z) (bucket : string)
      (objects : list S3Object.t) (prefixes : list S3Prefix.t)
      (isTruncated : bool) (continuationToken prefix : option string)
      (existing : CacheEntry.t) :
  cache c !! getCacheKey bucket prefix = Some existing ->
  append c now bucket objects prefixes isTruncated continuationToken prefix
  = mkCache
      (<[getCacheKey bucket prefix :=
           CacheEntry.mk
             (uniqueObjects (CacheEntry.objects existing ++ objects))
             (uniquePrefixes (CacheEntry.prefixes existing ++ prefixes))
             now isTruncated continuationToken]> (cache c))
      (ttl c).
Proof. intros H. unfold append. by rewrite H. Qed.

Lemma append_absent (c : S3Cache) (now : Z) (bucket : string)
      (objects : list S3Object.t) (prefixes : list S3Prefix.t)
      (isTruncated : bool) (continuationToken prefix : option string) :
  cache c !! getCacheKey bucket prefix = None ->
  append c now bucket objects prefixes isTruncated continuationToken prefix
  = set c now bucket objects prefixes isTruncated continuationToken prefix.
Proof. intros H. unfold append. by rewrite H. Qed.

(** C3. Idempotent merge, first occurrence wins: when the key has an
    entry, [append] leaves an entry whose objects and prefixes carry no
    identity twice, are the first occurrences of the old sequence followed
    by the page (old items in front keep their place, page items with an
    identity already present are dropped); appending the same page once more
    gives the same objects and prefixes, so the lengths do not change. *)
Theorem append_idempotent_first_wins (c : S3Cache) (t1 t2 : Z)
        (bucket : string) (objs : list S3Object.t) (prefs : list S3Prefix.t)
        (isTruncated : bool) (tok prefix : option string)
        (existing : CacheEntry.t) :
  cache c !! getCacheKey bucket prefix = Some existing ->
  let once := append c t1 bucket objs prefs isTruncated tok prefix in
  let twice := append once t2 bucket objs prefs isTruncated tok prefix in
  exists e1 e2,
    cache once !! getCacheKey bucket prefix = Some e1
    /\ cache twice !! getCacheKey bucket prefix = Some e2
    /\ firstWins S3Object.key (CacheEntry.objects existing) objs
                 (CacheEntry.objects e1)
    /\ firstWins S3Prefix.prefix (CacheEntry.prefixes existing) prefs
                 (CacheEntry.prefixes e1)
    /\ CacheEntry.objects e2 = CacheEntry.objects e1
    /\ CacheEntry.prefixes e2 = CacheEntry.prefixes e1
    /\ length (CacheEntry.objects e2) = length (CacheEntry.objects e1)
    /\ length (CacheEntry.prefixes e2) = length (CacheEntry.prefixes e1).
Proof.
  intros Hin once twice.
  assert (cache once !! getCacheKey bucket prefix
          = Some (CacheEntry.mk
                    (uniqueObjects (CacheEntry.objects existing ++ objs))
                    (uniquePrefixes (CacheEntry.prefixes existing ++ prefs))
                    t1 isTruncated tok)) as Honce.
  { unfold once. rewrite (append_existing _ _ _ _ _ _ _ _ _ Hin). simpl.
    apply lookup_insert_eq. }
  eexists _, _. split; [exact Honce|].
  split.
  { unfold twice. rewrite (append_existing _ _ _ _ _ _ _ _ _ Honce). simpl.
    apply lookup_insert_eq. }
  simpl. rewrite !uniqueObjects_dedupFirst, !uniquePrefixes_dedupFirst.
  rewrite !dedupFirst_merge_again.
  repeat split; try reflexivity; apply dedupFirst_firstWins.
Qed.

Lemma append_idempotent_first_wins_witness :
  let o1 := S3Object.mk "a.txt" 1 None None None in
  let o1' := S3Object.mk "a.txt" 2 None None None in
  let o2 := S3Object.mk "b.txt" 3 None None None in
  let c := set (newCache DEFAULT_TTL) 0 "bkt" [o1] [] true (Some "t") None in
  let once := append c 1 "bkt" [o1'; o2] [] false None None in
  let twice := append once 2 "bkt" [o1'; o2] [] false None None in
  cache once !! getCacheKey "bkt" None
  = Some (CacheEntry.mk [o1; o2] [] 1 false None)
  /\ exists e1 e2,
      cache once !! getCacheKey "bkt" None = Some e1
      /\ cache twice !! getCacheKey "bkt" None = Some e2
      /\ firstWins S3Object.key [o1] [o1'; o2] (CacheEntry.objects e1)
      /\ firstWins S3Prefix.prefix [] [] (CacheEntry.prefixes e1)
      /\ CacheEntry.objects e2 = CacheEntry.objects e1
      /\ CacheEntry.prefixes e2 = CacheEntry.prefixes e1
      /\ length (CacheEntry.objects e2) = length (CacheEntry.objects e1)
      /\ length (CacheEntry.prefixes e2) = length (CacheEntry.prefixes e1).
Proof.
  split; [vm_compute; reflexivity|].
  apply (append_idempotent_first_wins
           (set (newCache DEFAULT_TTL) 0 "bkt"
                [S3Object.mk "a.txt" 1 None None None] [] true (Some "t") None)
           1 2 "bkt" _ [] false None None
           (CacheEntry.mk [S3Object.mk "a.txt" 1 None None None] [] 0 true
                          (Some "t"))).
  vm_compute; reflexivity.
Defined.

(** C9. A continuation page overwrites the truncation state: after
    [set("bkt", [o1], [], true, "tok1")] and
    [append("bkt", [o2], [], false, undefined)], for two objects with
    different keys, the entry is [objects = [o1, o2]], [prefixes = []],
    [isTruncated = false], [continuationToken = undefined] and
    [lastFetched] is the time of the append; the same holds for every flag
    and token of the first page and of the continuation page: the entry
    carries those of the continuation page; whatever entry exists, [append]
    leaves the merged sequences with the page's flag and token and the time
    of the append; and on a key without an entry [append] is [set]. *)
Theorem append_overwrites_truncation (c : S3Cache) (t0 t1 : Z)
        (o1 o2 : S3Object.t) :
  S3Object.key o1 <> S3Object.key o2 ->
  cache (append (set c t0 "bkt" [o1] [] true (Some "tok1") None)
                t1 "bkt" [o2] [] false None None)
    !! getCacheKey "bkt" None
  = Some (CacheEntry.mk [o1; o2] [] t1 false None)
  /\ (forall (isTruncated0 : bool) (continuationToken0 : option string)
             (isTruncated : bool) (continuationToken : option string),
        cache (append (set c t0 "bkt" [o1] [] isTruncated0 continuationToken0
                           None)
                      t1 "bkt" [o2] [] isTruncated continuationToken None)
          !! getCacheKey "bkt" None
        = Some (CacheEntry.mk [o1; o2] [] t1 isTruncated continuationToken))
  /\ (forall (c' : S3Cache) (now : Z) (bucket : string)
             (objects : list S3Object.t) (prefixes : list S3Prefix.t)
             (isTruncated : bool) (continuationToken prefix : option string)
             (existing : CacheEntry.t),
        cache c' !! getCacheKey bucket prefix = Some existing ->
        cache (append c' now bucket objects prefixes isTruncated
                      continuationToken prefix) !! getCacheKey bucket prefix
        = Some (CacheEntry.mk
                  (uniqueObjects (CacheEntry.objects existing ++ objects))
                  (uniquePrefixes (CacheEntry.prefixes existing ++ prefixes))
                  now isTruncated continuationToken))
  /\ forall (c' : S3Cache) (now : Z) (bucket : string)
            (objects : list S3Object.t) (prefixes : list S3Prefix.t)
            (isTruncated : bool) (continuationToken prefix : option string),
      cache c' !! getCacheKey bucket prefix = None ->
      append c' now bucket objects prefixes isTruncated continuationToken
             prefix
      = set c' now bucket objects prefixes isTruncated continuationToken
            prefix.
Proof.
  intros Hne.
  assert (forall (isTruncated0 : bool) (continuationToken0 : option string)
                 (isTruncated : bool) (continuationToken : option string),
             cache (append (set c t0 "bkt" [o1] [] isTruncated0
                                continuationToken0 None)
                           t1 "bkt" [o2] [] isTruncated continuationToken
                           None)
               !! getCacheKey "bkt" None
             = Some (CacheEntry.mk [o1; o2] [] t1 isTruncated
                                   continuationToken)) as Hpage.
  { intros tr0 tok0 tr tok.
    erewrite append_existing by (simpl; apply lookup_insert_eq).
    simpl. rewrite lookup_insert_eq. do 2 f_equal.
    rewrite uniqueObjects_dedupFirst.
    cbn [CacheEntry.objects app dedupFirst].
    rewrite bool_decide_eq_false_2 by apply not_elem_of_nil.
    rewrite bool_decide_eq_false_2; [done|].
    rewrite list_elem_of_singleton. congruence. }
  split; [apply Hpage|]. split; [exact Hpage|].
  split; [|intros; by apply append_absent].
  intros c' now bucket objects prefixes isTruncated continuationToken prefix
         existing Hex.
  rewrite (append_existing _ _ _ _ _ _ _ _ _ Hex). simpl.
  apply lookup_insert_eq.
Qed.

Lemma append_overwrites_truncation_witness :
  let o1 := S3Object.mk "a.txt" 1 None None None in
  let o2 := S3Object.mk "b.txt" 2 None None None in
  S3Object.key o1 <> S3Object.key o2
  /\ cache (append (set (newCache DEFAULT_TTL) 10 "bkt" [o1] [] true
                        (Some "tok1") None)
                   20 "bkt" [o2] [] false None None)
       !! getCacheKey "bkt" None
     = Some (CacheEntry.mk [o1; o2] [] 20 false None)
  /\ cache (append (set (newCache DEFAULT_TTL) 10 "bkt" [o1] [] true
                        (Some "tok1") None)
                   20 "bkt" [o2] [] true (Some "tok2") None)
       !! getCacheKey "bkt" None
     = Some (CacheEntry.mk [o1; o2] [] 20 true (Some "tok2")).
Proof.
  assert (S3Object.key (S3Object.mk "a.txt" 1 None None None)
          <> S3Object.key (S3Object.mk "b.txt" 2 None None None)) as Hne
      by (simpl; discriminate).
  split; [exact Hne|].
  pose proof (append_overwrites_truncation (newCache DEFAULT_TTL) 10 20
                                           _ _ Hne) as (H1 & H2 & _).
  split; [exact H1|]. exact (H2 true (Some "tok1") true (Some "tok2")).
Defined.

(* ===================================================================== *)
(** ** The truncation invariant *)
(* ===================================================================== *)

Section Invariant.

Lemma cacheInvariant_insert (m : gmap string CacheEntry.t) (t : Z)
      (k : string) (e : CacheEntry.t) :
  entryInvariant e ->
  cacheInvariant (mkCache m t) ->
  cacheInvariant (mkCache (<[k := e]> m) t).
Proof. intros He Hm. by apply map_Forall_insert_2. Qed.

Lemma cacheInvariant_fold_delete (keys : list string)
      (m : gmap string CacheEntry.t) (t : Z) :
  cacheInvariant (mkCache m t) ->
  cacheInvariant
    (mkCache (fold_left (fun m parentKey => delete parentKey m) keys m) t).
Proof.
  revert m. induction keys as [|k keys IH]; intros m Hm; simpl; [done|].
  apply IH. by apply map_Forall_delete.
Qed.

Lemma runOp_invariant (c : S3Cache) (op : CacheOp) :
  cacheInvariant c -> pageWellFormed op -> cacheInvariant (runOp c op).
Proof.
  intros Hc Hop. destruct c as [m t].
  destruct op as [now b p|now b os ps tr tok p|now b os ps tr tok p|b p|];
    simpl in *.
  - unfold get. simpl. destruct (m !! getCacheKey b p) as [e|]; [|done].
    destruct (_ >? _); simpl; [|done]. by apply map_Forall_delete.
  - by apply cacheInvariant_insert.
  - unfold append. simpl. destruct (m !! getCacheKey b p).
    + by apply cacheInvariant_insert.
    + by apply cacheInvariant_insert.
  - unfold invalidate. simpl. destruct (Js.truthy p).
    + apply cacheInvariant_fold_delete. by apply map_Forall_delete.
    + intros k e Hk. apply map_lookup_filter_Some in Hk as [Hk _].
      by apply (Hc k).
  - apply map_Forall_empty.
Qed.

End Invariant.

(** C5, as stated, fails: [set] stores the flag and the token it is given,
    so a page with [isTruncated = true] and no token leaves an entry that
    breaks the invariant. *)
Lemma invariant_not_enforced :
  ~ (forall ops : list CacheOp,
        cacheInvariant (fold_left runOp ops (newCache DEFAULT_TTL))).
Proof.
  intros H.
  specialize (H [OpSet 0 "bkt" [] [] true None None]).
  specialize (H (getCacheKey "bkt" None)
                (CacheEntry.mk [] [] 0 true None)).
  simpl in H. unfold entryInvariant in H. simpl in H.
  assert (false = true) as Habs by (apply H; vm_compute; reflexivity).
  discriminate.
Qed.

(** C5, amended. The cache keeps [isTruncated] and [continuationToken] as
    they are passed in: the entry written by [set] carries exactly its
    arguments, the entry written by [append], merging or not, carries the
    flag, the token and the time it was given, and [get] hands entries out
    without changing them; so the stored entry satisfies the invariant
    exactly when the page passed in does, and when every page given to [set]
    and [append] has its token present iff it is truncated, every entry
    satisfies the invariant after any sequence of [get], [set], [append],
    [invalidate], [invalidateAll]. *)
Theorem invariant_preserved (ops : list CacheOp) (c : S3Cache) :
  cacheInvariant c ->
  Forall pageWellFormed ops ->
  cacheInvariant (fold_left runOp ops c)
  /\ (forall now bucket objects prefixes isTruncated continuationToken prefix,
        cache (set c now bucket objects prefixes isTruncated continuationToken
                   prefix) !! getCacheKey bucket prefix
        = Some (CacheEntry.mk objects prefixes now isTruncated
                              continuationToken))
  /\ (forall c' now bucket objects prefixes isTruncated continuationToken
             prefix,
        cache (runOp c' (OpSet now bucket objects prefixes isTruncated
                               continuationToken prefix))
          !! getCacheKey bucket prefix
        = Some (CacheEntry.mk objects prefixes now isTruncated
                              continuationToken)
        /\ (entryInvariant (CacheEntry.mk objects prefixes now isTruncated
                                          continuationToken)
            <-> present continuationToken = isTruncated))
  /\ (forall c' now bucket objects prefixes isTruncated continuationToken
             prefix,
        exists e,
          cache (runOp c' (OpAppend now bucket objects prefixes isTruncated
                                    continuationToken prefix))
            !! getCacheKey bucket prefix = Some e
          /\ cache (append c' now bucket objects prefixes isTruncated
                           continuationToken prefix)
               !! getCacheKey bucket prefix = Some e
          /\ CacheEntry.lastFetched e = now
          /\ CacheEntry.isTruncated e = isTruncated
          /\ CacheEntry.continuationToken e = continuationToken
          /\ (entryInvariant e <-> present continuationToken = isTruncated))
  /\ (forall c' now bucket prefix,
        (forall e, fst (get c' now bucket prefix) = Some e ->
                   cache c' !! getCacheKey bucket prefix = Some e)
        /\ (forall k e,
              cache (runOp c' (OpGet now bucket prefix)) !! k = Some e ->
              cache c' !! k = Some e)).
Proof.
  intros Hc Hops. split; [|split; [intros; apply lookup_insert_eq|]].
  { revert c Hc. induction Hops as [|op ops Hop Hops IH]; intros c Hc; simpl.
    - exact Hc.
    - apply IH. by apply runOp_invariant. }
  split; [|split].
  - intros. split; [apply lookup_insert_eq|done].
  - intros c' now bucket objects prefixes isTruncated continuationToken
           prefix.
    simpl. destruct (cache c' !! getCacheKey bucket prefix) as [ex|] eqn:Hex.
    + rewrite (append_existing _ _ _ _ _ _ _ _ _ Hex). simpl.
      eexists. split; [apply lookup_insert_eq|].
      split; [apply lookup_insert_eq|]. done.
    + rewrite (append_absent _ _ _ _ _ _ _ _ Hex). simpl.
      eexists. split; [apply lookup_insert_eq|].
      split; [apply lookup_insert_eq|]. done.
  - intros c' now bucket prefix. split.
    + intros e He. by apply get_Some_inv in He as [He _].
    + intros k e. simpl. unfold get.
      destruct (cache c' !! getCacheKey bucket prefix) as [e'|]; [|done].
      destruct (_ >? _); simpl; [|done].
      intros H. by apply lookup_delete_Some in H as [_ H].
Qed.

Lemma invariant_preserved_witness :
  let o := S3Object.mk "a.txt" 1 None None None in
  let o' := S3Object.mk "b.txt" 2 None None None in
  let ops := [OpSet 0 "bkt" [o] [] false None None;
              OpGet 10 "bkt" None;
              OpAppend 20 "bkt" [o'] [] true (Some "tok2") None;
              OpInvalidate "other" None] in
  cacheInvariant (fold_left runOp ops (newCache DEFAULT_TTL))
  /\ cache (fold_left runOp ops (newCache DEFAULT_TTL))
       !! getCacheKey "bkt" None
     = Some (CacheEntry.mk [o; o'] [] 20 true (Some "tok2")).
Proof.
  split; [|vm_compute; reflexivity].
  apply invariant_preserved.
  - apply map_Forall_empty.
  - repeat constructor.
Defined.

(* ===================================================================== *)
(** ** Node materializer *)
(* ===================================================================== *)

Section Materializer.

Lemma pushEach_map {A B} (g : A -> B) (arr : list B) (xs : list A) :
  Js.pushEach g arr xs = arr ++ map g xs.
Proof.
  unfold Js.pushEach. revert arr.
  induction xs as [|x xs IH]; intros arr; simpl.
  - by rewrite app_nil_r.
  - rewrite IH. by rewrite <- app_assoc.
Qed.

Lemma createNodes_unfold bucket (result : ListResult.t) prefix :
  createNodes bucket result prefix
  = map (fun p => PrefixNode bucket (S3Prefix.prefix p))
        (ListResult.prefixes result)
    ++ map (fun o => ObjectNode bucket (S3Object.key o) (S3Object.size o)
                                (S3Object.lastModified o))
           (ListResult.objects result)
    ++ sentinel bucket prefix (ListResult.isTruncated result)
                (ListResult.continuationToken result).
Proof.
  unfold createNodes, sentinel. rewrite !pushEach_map. simpl.
  destruct (_ && _); [by rewrite <- app_assoc|by rewrite app_nil_r].
Qed.

Lemma createNodesFromCache_unfold bucket (cached : CacheEntry.t) prefix :
  createNodesFromCache bucket cached prefix
  = map (fun p => PrefixNode bucket (S3Prefix.prefix p))
        (CacheEntry.prefixes cached)
    ++ map (fun o => ObjectNode bucket (S3Object.key o) (S3Object.size o)
                                (S3Object.lastModified o))
           (CacheEntry.objects cached)
    ++ sentinel bucket prefix (CacheEntry.isTruncated cached)
                (CacheEntry.continuationToken cached).
Proof.
  unfold createNodesFromCache, sentinel. rewrite !pushEach_map. simpl.
  destruct (_ && _); [by rewrite <- app_assoc|by rewrite app_nil_r].
Qed.

Lemma loadMoreNodes_app (l1 l2 : list BaseTreeNode) :
  loadMoreNodes (l1 ++ l2) = loadMoreNodes l1 ++ loadMoreNodes l2.
Proof. apply List.filter_app. Qed.

Lemma loadMoreNodes_folders bucket (ps : list S3Prefix.t) :
  loadMoreNodes (map (fun p => PrefixNode bucket (S3Prefix.prefix p)) ps)
  = [].
Proof. induction ps; simpl; done. Qed.

Lemma loadMoreNodes_objects bucket (os : list S3Object.t) :
  loadMoreNodes
    (map (fun o => ObjectNode bucket (S3Object.key o) (S3Object.size o)
                              (S3Object.lastModified o)) os)
  = [].
Proof. induction os; simpl; done. Qed.

Lemma loadMoreNodes_sentinel bucket prefix isTruncated continuationToken :
  loadMoreNodes (sentinel bucket prefix isTruncated continuationToken)
  = sentinel bucket prefix isTruncated continuationToken.
Proof. unfold sentinel. by destruct (_ && _). Qed.

End Materializer.

(** C6, as stated, fails: a truncated entry whose token is absent is
    rendered without a load-more node. *)
Lemma truncated_without_token_has_no_load_more :
  ~ (forall (bucket : string) (prefix : option string) (e : CacheEntry.t),
        existsb isLoadMoreNode (createNodesFromCache bucket e prefix) = true
        <-> CacheEntry.isTruncated e = true).
Proof.
  intros H.
  destruct (H "bkt" None (CacheEntry.mk [] [] 0 true None)) as [_ H2].
  specialize (H2 eq_refl). vm_compute in H2. discriminate.
Qed.

(** C6, amended. The load-more nodes of a rendered entry (or listing
    result) are: exactly one, carrying the entry's token and the originating
    bucket and prefix, when [isTruncated] is true and the token is present
    and not empty; none otherwise. In particular [isTruncated = false] gives
    none whatever the token is. *)
Theorem load_more_iff_truncated_with_token (bucket : string)
        (prefix : option string) (e : CacheEntry.t) (result : ListResult.t) :
  loadMoreNodes (createNodesFromCache bucket e prefix)
  = (if CacheEntry.isTruncated e && Js.truthy (CacheEntry.continuationToken e)
     then [LoadMoreNode bucket prefix
                        (default "" (CacheEntry.continuationToken e))]
     else [])
  /\ loadMoreNodes (createNodes bucket result prefix)
     = (if ListResult.isTruncated result
           && Js.truthy (ListResult.continuationToken result)
        then [LoadMoreNode bucket prefix
                           (default "" (ListResult.continuationToken result))]
        else [])
  /\ (forall objects prefixes lastFetched continuationToken,
        loadMoreNodes
          (createNodesFromCache bucket
             (CacheEntry.mk objects prefixes lastFetched false
                            continuationToken) prefix) = [])
  /\ (forall objects prefixes continuationToken,
        loadMoreNodes
          (createNodes bucket
             (ListResult.mk objects prefixes false continuationToken)
             prefix) = []).
Proof.
  rewrite createNodes_unfold, createNodesFromCache_unfold.
  rewrite !loadMoreNodes_app, !loadMoreNodes_folders, !loadMoreNodes_objects,
    !loadMoreNodes_sentinel.
  repeat split; try done.
  - intros. rewrite createNodesFromCache_unfold.
    by rewrite !loadMoreNodes_app, loadMoreNodes_folders, loadMoreNodes_objects.
  - intros. rewrite createNodes_unfold.
    by rewrite !loadMoreNodes_app, loadMoreNodes_folders, loadMoreNodes_objects.
Qed.

(** C7. Ordering: folders in entry order, then objects in entry order, then
    at most one load-more sentinel, last; and on the entry
    [prefixes = [p1, p2]], [objects = [o1, o2]], [isTruncated = true],
    [continuationToken = "tok"] the nodes are exactly
    [Folder(p1), Folder(p2), Object(o1), Object(o2), LoadMore(tok)]. *)
Theorem materialize_order (bucket : string) (prefix : option string) :
  (forall e : CacheEntry.t,
      exists tail,
        createNodesFromCache bucket e prefix
        = map (fun p => PrefixNode bucket (S3Prefix.prefix p))
              (CacheEntry.prefixes e)
          ++ map (fun o => ObjectNode bucket (S3Object.key o)
                                      (S3Object.size o)
                                      (S3Object.lastModified o))
                 (CacheEntry.objects e)
          ++ tail
        /\ tail = loadMoreNodes (createNodesFromCache bucket e prefix)
        /\ (length tail <= 1)%nat)
  /\ (forall result : ListResult.t,
        exists tail,
          createNodes bucket result prefix
          = map (fun p => PrefixNode bucket (S3Prefix.prefix p))
                (ListResult.prefixes result)
            ++ map (fun o => ObjectNode bucket (S3Object.key o)
                                        (S3Object.size o)
                                        (S3Object.lastModified o))
                   (ListResult.objects result)
            ++ tail
          /\ tail = loadMoreNodes (createNodes bucket result prefix)
          /\ (length tail <= 1)%nat)
  /\ (forall (p1 p2 : S3Prefix.t) (o1 o2 : S3Object.t) (lastFetched : Z),
        createNodesFromCache bucket
          (CacheEntry.mk [o1; o2] [p1; p2] lastFetched true (Some "tok"))
          prefix
        = [PrefixNode bucket (S3Prefix.prefix p1);
           PrefixNode bucket (S3Prefix.prefix p2);
           ObjectNode bucket (S3Object.key o1) (S3Object.size o1)
                      (S3Object.lastModified o1);
           ObjectNode bucket (S3Object.key o2) (S3Object.size o2)
                      (S3Object.lastModified o2);
           LoadMoreNode bucket prefix "tok"])
  /\ (forall (p1 p2 : S3Prefix.t) (o1 o2 : S3Object.t),
        createNodes bucket
          (ListResult.mk [o1; o2] [p1; p2] true (Some "tok")) prefix
        = [PrefixNode bucket (S3Prefix.prefix p1);
           PrefixNode bucket (S3Prefix.prefix p2);
           ObjectNode bucket (S3Object.key o1) (S3Object.size o1)
                      (S3Object.lastModified o1);
           ObjectNode bucket (S3Object.key o2) (S3Object.size o2)
                      (S3Object.lastModified o2);
           LoadMoreNode bucket prefix "tok"]).
Proof.
  split; [|split; [|split; reflexivity]].
  - intros e. eexists. split; [apply createNodesFromCache_unfold|].
    rewrite createNodesFromCache_unfold, !loadMoreNodes_app,
      loadMoreNodes_folders, loadMoreNodes_objects, loadMoreNodes_sentinel.
    split; [done|]. unfold sentinel. destruct (_ && _); simpl; lia.
  - intros r. eexists. split; [apply createNodes_unfold|].
    rewrite createNodes_unfold, !loadMoreNodes_app,
      loadMoreNodes_folders, loadMoreNodes_objects, loadMoreNodes_sentinel.
    split; [done|]. unfold sentinel. destruct (_ && _); simpl; lia.
Qed.

(** C8. The two materialization paths agree: a listing result and a cache
    entry with the same objects, prefixes, truncation flag and token are
    rendered to the same node sequence by [createNodes] and
    [createNodesFromCache]. *)
Theorem createNodes_createNodesFromCache (bucket : string)
        (prefix : option string) (result : ListResult.t)
        (cached : CacheEntry.t) :
  ListResult.objects result = CacheEntry.objects cached ->
  ListResult.prefixes result = CacheEntry.prefixes cached ->
  ListResult.isTruncated result = CacheEntry.isTruncated cached ->
  ListResult.continuationToken result = CacheEntry.continuationToken cached ->
  createNodes bucket result prefix
  = createNodesFromCache bucket cached prefix.
Proof.
  intros Ho Hp Ht Hk. unfold createNodes, createNodesFromCache.
  by rewrite Ho, Hp, Ht, Hk.
Qed.

Lemma createNodes_createNodesFromCache_witness :
  let o := S3Object.mk "a/x.txt" 7 (Some 42) None None in
  let p := S3Prefix.mk "a/b/" in
  createNodes "bkt" (ListResult.mk [o] [p] true (Some "tok")) (Some "a/")
  = createNodesFromCache "bkt" (CacheEntry.mk [o] [p] 1000 true (Some "tok"))
                         (Some "a/").
Proof.
  apply createNodes_createNodesFromCache; reflexivity.
Defined.

(* ===================================================================== *)
(** ** Read paths *)
(* ===================================================================== *)

Section ReadPaths.

Variable listObjects :
  list ListCall -> string -> option string -> option string ->
  Outcome ListResult.t.

(** A fresh hit without a token is answered from the cache alone. *)
Lemma getContents_hit (w : World) (now later : Z) (bucket : string)
      (prefix : option string) (entry : CacheEntry.t) :
  fst (get (s3Cache w) now bucket prefix) = Some entry ->
  getContents listObjects w now later bucket prefix None
  = (Ok (createNodesFromCache bucket entry prefix), w).
Proof.
  intros Hget. unfold getContents.
  destruct (get_Some_inv _ _ _ _ _ Hget) as [_ Hc].
  destruct (get (s3Cache w) now bucket prefix) as [cached c1].
  simpl in *. subst. by destruct w.
Qed.

(** A miss without a token issues one listing call and stores its
    result with [set]. *)
Lemma getContents_miss (w : World) (now later : Z) (bucket : string)
      (prefix : option string) (result : ListResult.t) :
  fst (get (s3Cache w) now bucket prefix) = None ->
  listObjects (listCalls w) bucket prefix None = Ok result ->
  getContents listObjects w now later bucket prefix None
  = (Ok (createNodes bucket result prefix),
     mkWorld
       (set (snd (get (s3Cache w) now bucket prefix)) later bucket
            (ListResult.objects result) (ListResult.prefixes result)
            (ListResult.isTruncated result)
            (ListResult.continuationToken result) prefix)
       (listCalls w ++ [(bucket, prefix, None)])).
Proof.
  intros Hget Hlist. unfold getContents.
  destruct (get (s3Cache w) now bucket prefix) as [cached c1].
  simpl in *. subst. by rewrite Hlist.
Qed.

Lemma readDirectory_calls (w : World) (bucket key : string) :
  listCalls (snd (readDirectory listObjects w bucket key))
  = listCalls w ++ [(bucket, Js.orUndefined key, None)]
  /\ s3Cache (snd (readDirectory listObjects w bucket key)) = s3Cache w.
Proof.
  unfold readDirectory, Js.orUndefined.
  by destruct (listObjects _ _ _ _).
Qed.

End ReadPaths.

(** C4, as stated, fails for the virtual filesystem: with a fresh entry
    cached for the bucket root, [readDirectory] still issues a
    [listObjects] call. *)
Lemma readDirectory_ignores_cache :
  ~ (forall listObjects (w : World) (now : Z) (bucket key : string)
            (entry : CacheEntry.t),
        fst (get (s3Cache w) now bucket (Js.orUndefined key)) = Some entry ->
        listCalls (snd (readDirectory listObjects w bucket key))
        = listCalls w).
Proof.
  intros H.
  specialize (H (fun _ _ _ _ => Ok (ListResult.mk [] [] false None))
                (mkWorld (set (newCache DEFAULT_TTL) 0 "bkt" [] [] false None
                              None) [])
                1 "bkt" "" (CacheEntry.mk [] [] 0 false None)).
  vm_compute in H. specialize (H eq_refl). discriminate.
Qed.

(** C4, amended. The tree consumer consults the cache first: for a request
    without a continuation token, [getBucketContents] and
    [getPrefixContents] answer a fresh cache entry with the nodes rendered
    from it, issue no [listObjects] call and leave the cache alone; on a
    miss they issue exactly one [listObjects] call and, when it succeeds,
    store its result with [set] and render it. The virtual-filesystem
    consumer [readDirectory] does not use the cache: it issues a
    [listObjects] call on every request and never touches the cache. *)
Theorem tree_consults_cache_filesystem_always_fetches
        (listObjects : list ListCall -> string -> option string ->
                       option string -> Outcome ListResult.t)
        (w : World) (now later : Z) (bucket prefix : string) :
  (forall entry,
      fst (get (s3Cache w) now bucket None) = Some entry ->
      getBucketContents listObjects w now later bucket None
      = (Ok (createNodesFromCache bucket entry None), w))
  /\ (forall entry,
        fst (get (s3Cache w) now bucket (Some prefix)) = Some entry ->
        getPrefixContents listObjects w now later bucket prefix None
        = (Ok (createNodesFromCache bucket entry (Some prefix)), w))
  /\ (forall result,
        fst (get (s3Cache w) now bucket None) = None ->
        listObjects (listCalls w) bucket None None = Ok result ->
        getBucketContents listObjects w now later bucket None
        = (Ok (createNodes bucket result None),
           mkWorld
             (set (snd (get (s3Cache w) now bucket None)) later bucket
                  (ListResult.objects result) (ListResult.prefixes result)
                  (ListResult.isTruncated result)
                  (ListResult.continuationToken result) None)
             (listCalls w ++ [(bucket, None, None)])))
  /\ (forall result,
        fst (get (s3Cache w) now bucket (Some prefix)) = None ->
        listObjects (listCalls w) bucket (Some prefix) None = Ok result ->
        getPrefixContents listObjects w now later bucket prefix None
        = (Ok (createNodes bucket result (Some prefix)),
           mkWorld
             (set (snd (get (s3Cache w) now bucket (Some prefix))) later
                  bucket
                  (ListResult.objects result) (ListResult.prefixes result)
                  (ListResult.isTruncated result)
                  (ListResult.continuationToken result) (Some prefix))
             (listCalls w ++ [(bucket, Some prefix, None)])))
  /\ (forall key,
        listCalls (snd (readDirectory listObjects w bucket key))
        = listCalls w ++ [(bucket, Js.orUndefined key, None)]
        /\ s3Cache (snd (readDirectory listObjects w bucket key))
           = s3Cache w).
Proof.
  unfold getBucketContents, getPrefixContents.
  repeat split.
  - intros. by apply getContents_hit.
  - intros. by apply getContents_hit.
  - intros. by apply getContents_miss.
  - intros. by apply getContents_miss.
  - apply readDirectory_calls.
  - apply readDirectory_calls.
Qed.

Lemma tree_consults_cache_filesystem_always_fetches_witness :
  let remote : list ListCall -> string -> option string -> option string ->
               Outcome ListResult.t :=
    fun _ _ _ _ => Ok (ListResult.mk [] [S3Prefix.mk "a/"] false None) in
  let o := S3Object.mk "x.txt" 1 None None None in
  let entry := CacheEntry.mk [o] [] 0 false None in
  let w := mkWorld (set (newCache DEFAULT_TTL) 0 "bkt" [o] [] false None None)
                   [] in
  getBucketContents remote w 5 6 "bkt" None
  = (Ok [ObjectNode "bkt" "x.txt" 1 None], w)
  /\ getPrefixContents remote w 5 6 "bkt" "a/" None
     = (Ok [PrefixNode "bkt" "a/"],
        mkWorld (set (s3Cache w) 6 "bkt" [] [S3Prefix.mk "a/"] false None
                     (Some "a/"))
                [("bkt", Some "a/", None)]).
Proof.
  intros remote o entry w.
  destruct (tree_consults_cache_filesystem_always_fetches
              remote w 5 6 "bkt" "a/") as (Hhit & _ & _ & Hmiss & _).
  split.
  - apply (Hhit entry). vm_compute. reflexivity.
  - apply (Hmiss (ListResult.mk [] [S3Prefix.mk "a/"] false None)).
    + vm_compute. reflexivity.
    + reflexivity.
Defined.

(* ===================================================================== *)
(** ** Directory listing of the virtual filesystem *)
(* ===================================================================== *)

Section DirectoryListing.

Implicit Types (prefix : option string)
         (entries : list (string * FileType)).

Lemma substring_nothing (n : nat) (s : string) : String.substring n 0 s = "".
Proof. revert s. induction n as [|n IH]; intros [|a s]; simpl; auto. Qed.

Lemma substringFrom_all (s : string) :
  Js.substringFrom s (String.length s) = "".
Proof.
  unfold Js.substringFrom. rewrite Nat.sub_diag. apply substring_nothing.
Qed.

(** Stripping the requested prefix off itself leaves the empty name. *)
Lemma stripParent_self (key : string) :
  stripParent (Js.orUndefined key) key = "".
Proof.
  destruct key as [|a key]; [done|].
  unfold stripParent, Js.orUndefined. simpl Js.truthy. cbv iota.
  apply substringFrom_all.
Qed.

Lemma pushFile_skip prefix entries (o : S3Object.t) :
  stripParent prefix (S3Object.key o) = ""
  \/ Js.includes (stripParent prefix (S3Object.key o)) "/" = true ->
  pushFile prefix entries o = entries.
Proof.
  unfold pushFile. intros [H|H]; rewrite H; [|done].
  simpl. done.
Qed.

Lemma pushFolder_skip prefix entries (p : S3Prefix.t) :
  Js.stripTrailingSlash (stripParent prefix (S3Prefix.prefix p)) = "" ->
  pushFolder prefix entries p = entries.
Proof. unfold pushFolder. by intros ->. Qed.

Lemma truthy_nonempty (s : string) : Js.truthy (Some s) = true -> s <> "".
Proof. by destruct s. Qed.

Lemma pushFolder_ok prefix entries (p : S3Prefix.t) :
  entriesOk entries -> entriesOk (pushFolder prefix entries p).
Proof.
  intros [H1 H2]. unfold pushFolder.
  destruct (Js.truthy (Some _)) eqn:Hname; [|done].
  split; apply Forall_app; (split; [done|]); apply Forall_singleton; simpl.
  - by apply truthy_nonempty.
  - done.
Qed.

Lemma pushFile_ok prefix entries (o : S3Object.t) :
  entriesOk entries -> entriesOk (pushFile prefix entries o).
Proof.
  intros [H1 H2]. unfold pushFile.
  destruct (Js.includes _ _) eqn:Hslash; [done|].
  destruct (Js.truthy (Some _)) eqn:Hname; [|done].
  split; apply Forall_app; (split; [done|]); apply Forall_singleton; simpl.
  - by apply truthy_nonempty.
  - done.
Qed.

Lemma fold_left_ok {A} (body : list (string * FileType) -> A ->
                               list (string * FileType))
      (items : list A) entries :
  (forall es x, entriesOk es -> entriesOk (body es x)) ->
  entriesOk entries -> entriesOk (fold_left body items entries).
Proof.
  intros Hbody. revert entries.
  induction items as [|x items IH]; intros es Hes; simpl; auto.
Qed.

Lemma directoryEntries_ok prefix (result : ListResult.t) :
  entriesOk (directoryEntries prefix result).
Proof.
  unfold directoryEntries.
  apply fold_left_ok; [apply pushFile_ok|].
  apply fold_left_ok; [apply pushFolder_ok|].
  split; constructor.
Qed.

(** An item on which the loop body does nothing can be left out. *)
Lemma fold_left_skip {A B} (body : B -> A -> B) (before after : list A)
      (x : A) (init : B) :
  (forall acc, body acc x = acc) ->
  fold_left body (before ++ x :: after) init
  = fold_left body (before ++ after) init.
Proof. intros Hx. rewrite !fold_left_app. simpl. by rewrite Hx. Qed.

End DirectoryListing.

(** C10. No empty names, direct children only: when the listing succeeds,
    [readDirectory] returns entries that all have a non-empty name and whose
    file names contain no ["/"]; an object whose key is the requested prefix
    itself, an object whose relative name still contains a ["/"], and a
    prefix entry whose name is empty after stripping the parent prefix and
    the trailing slash contribute nothing: the entries are those of the
    listing without that item. *)
Theorem readDirectory_direct_children
        (listObjects : list ListCall -> string -> option string ->
                       option string -> Outcome ListResult.t)
        (w : World) (bucket key : string) (result : ListResult.t) :
  listObjects (listCalls w) bucket (Js.orUndefined key) None = Ok result ->
  exists entries,
    fst (readDirectory listObjects w bucket key) = Ok entries
    /\ Forall (fun e => fst e <> "") entries
    /\ Forall (fun e => snd e = File -> Js.includes (fst e) "/" = false)
              entries
    /\ (forall before o after,
          ListResult.objects result = before ++ o :: after ->
          S3Object.key o = key
          \/ Js.includes (stripParent (Js.orUndefined key) (S3Object.key o))
                         "/" = true ->
          entries
          = directoryEntries (Js.orUndefined key)
              (ListResult.mk (before ++ after) (ListResult.prefixes result)
                             (ListResult.isTruncated result)
                             (ListResult.continuationToken result)))
    /\ (forall before p after,
          ListResult.prefixes result = before ++ p :: after ->
          Js.stripTrailingSlash
            (stripParent (Js.orUndefined key) (S3Prefix.prefix p)) = "" ->
          entries
          = directoryEntries (Js.orUndefined key)
              (ListResult.mk (ListResult.objects result) (before ++ after)
                             (ListResult.isTruncated result)
                             (ListResult.continuationToken result))).
Proof.
  intros Hlist. exists (directoryEntries (Js.orUndefined key) result).
  split.
  { unfold readDirectory. fold (Js.orUndefined key). by rewrite Hlist. }
  destruct (directoryEntries_ok (Js.orUndefined key) result) as [H1 H2].
  split; [exact H1|]. split; [exact H2|]. split.
  - intros before o after Hobjs Ho. unfold directoryEntries. simpl.
    rewrite Hobjs. apply fold_left_skip. intros acc. apply pushFile_skip.
    destruct Ho as [<-|Ho]; [left; apply stripParent_self|by right].
  - intros before p after Hprefs Hp. unfold directoryEntries. simpl.
    rewrite Hprefs. f_equal. apply fold_left_skip. intros acc.
    by apply pushFolder_skip.
Qed.

Lemma readDirectory_direct_children_witness :
  let obj := fun k => S3Object.mk k 0 None None None in
  let remote : list ListCall -> string -> option string -> option string ->
               Outcome ListResult.t :=
    fun _ _ _ _ =>
      Ok (ListResult.mk [obj "a/"; obj "a/x.txt"; obj "a/b/y.txt"]
                        [S3Prefix.mk "a/"; S3Prefix.mk "a/b/"] false None) in
  fst (readDirectory remote (mkWorld (newCache DEFAULT_TTL) []) "bkt" "a/")
  = Ok [("b", Directory); ("x.txt", File)]
  /\ exists entries,
      fst (readDirectory remote (mkWorld (newCache DEFAULT_TTL) []) "bkt" "a/")
      = Ok entries
      /\ Forall (fun e => fst e <> "") entries.
Proof.
  intros obj remote. split; [vm_compute; reflexivity|].
  destruct (readDirectory_direct_children
              remote (mkWorld (newCache DEFAULT_TTL) []) "bkt" "a/"
              (ListResult.mk [obj "a/"; obj "a/x.txt"; obj "a/b/y.txt"]
                             [S3Prefix.mk "a/"; S3Prefix.mk "a/b/"] false None)
              eq_refl) as (entries & Hr & Hne & _).
  exists entries. split; [exact Hr|exact Hne].
Defined.

(* ===================================================================== *)
(** ** Listing cache: keys, round trips, sweeping *)
(* ===================================================================== *)

Section CacheKeys.

Implicit Types (bucket s t : string) (prefix : option string).

Lemma string_app_inv_l s t1 t2 : s +:+ t1 = s +:+ t2 -> t1 = t2.
Proof. induction s as [|a s IH]; simpl; [done|]. intros [= H]. auto. Qed.

Lemma string_app_assoc s t u : (s +:+ t) +:+ u = s +:+ (t +:+ u).
Proof.
  induction s as [|a s IH]; [done|].
  change (String a ((s +:+ t) +:+ u) = String a (s +:+ (t +:+ u))).
  by rewrite IH.
Qed.

Lemma startsWith_app s t : Js.startsWith (s +:+ t) s = true.
Proof.
  unfold Js.startsWith. induction s as [|a s IH]; simpl.
  - by destruct t.
  - destruct (ascii_dec a a); [done|congruence].
Qed.

Lemma startsWith_inv s p :
  Js.startsWith s p = true -> exists rest, s = p +:+ rest.
Proof.
  unfold Js.startsWith. revert s. induction p as [|a p IH]; intros s H.
  - by exists s.
  - destruct s as [|b s]; simpl in H; [done|].
    destruct (ascii_dec a b) as [->|]; [|done].
    destruct (IH _ H) as [rest ->]. by exists rest.
Qed.

(** Two colon-free names followed by a colon can only line up when they
    are the same name. *)
Lemma colonFree_split b1 b2 r1 r2 :
  colonFree b1 -> colonFree b2 ->
  b1 +:+ ":" +:+ r1 = b2 +:+ ":" +:+ r2 -> b1 = b2 /\ r1 = r2.
Proof.
  unfold colonFree. revert b2.
  induction b1 as [|a b1 IH]; intros [|a' b2] H1 H2 Heq; simpl in *.
  - by injection Heq.
  - injection Heq as <- _. done.
  - injection Heq as -> _. done.
  - injection Heq as -> Heq.
    apply orb_false_iff in H1 as [_ H1]. apply orb_false_iff in H2 as [_ H2].
    destruct (IH _ H1 H2 Heq) as [-> ->]. done.
Qed.

End CacheKeys.

(** X1. Cache keys: for bucket names without a colon, two composite keys
    are equal exactly when the buckets are equal and the prefixes are equal,
    an omitted prefix counting as the empty one. *)
Theorem getCacheKey_inj (b1 b2 : string) (p1 p2 : option string) :
  colonFree b1 -> colonFree b2 ->
  getCacheKey b1 p1 = getCacheKey b2 p2
  <-> b1 = b2 /\ Js.orEmpty p1 = Js.orEmpty p2.
Proof.
  intros H1 H2. unfold getCacheKey. split.
  - by apply colonFree_split.
  - by intros [-> ->].
Qed.

Lemma getCacheKey_inj_witness :
  (getCacheKey "bkt" None = getCacheKey "bkt" (Some "")
   <-> "bkt" = "bkt" /\ Js.orEmpty None = Js.orEmpty (Some ""))
  /\ (getCacheKey "bkt" (Some "a/") = getCacheKey "bk" (Some "t:a/")
      <-> "bkt" = "bk" /\ Js.orEmpty (Some "a/") = Js.orEmpty (Some "t:a/")).
Proof.
  split; apply getCacheKey_inj; reflexivity.
Defined.

(** X2. Bucket-wide invalidation: [invalidate(b)] without a prefix (or with
    the empty prefix) removes the entry of every prefix of bucket [b], and
    keeps every entry of any other bucket, bucket names being colon-free. *)
Theorem invalidate_bucket (c : S3Cache) (b b' : string) :
  colonFree b -> colonFree b' -> b <> b' ->
  (forall p, cache (invalidate c b None) !! getCacheKey b p = None)
  /\ (forall p, cache (invalidate c b None) !! getCacheKey b' p
                = cache c !! getCacheKey b' p)
  /\ invalidate c b (Some "") = invalidate c b None.
Proof.
  intros Hb Hb' Hne. unfold invalidate. simpl. repeat split.
  - intros p. apply map_lookup_filter_None. right. intros e _ Hnot.
    apply Hnot. simpl. unfold getCacheKey.
    rewrite <- string_app_assoc, startsWith_app. done.
  - intros p. destruct (cache c !! getCacheKey b' p) as [e|] eqn:He.
    + apply map_lookup_filter_Some. split; [done|]. simpl. intros Hs.
      apply Is_true_true, startsWith_inv in Hs as [rest Hs].
      unfold getCacheKey in Hs. rewrite string_app_assoc in Hs.
      apply colonFree_split in Hs as [-> _]; done.
    + apply map_lookup_filter_None. by left.
Qed.

Lemma invalidate_bucket_witness :
  let c := set (set (newCache DEFAULT_TTL) 0 "one" [] [] false None
                    (Some "a/"))
               0 "two" [] [] false None None in
  (forall p, cache (invalidate c "one" None) !! getCacheKey "one" p = None)
  /\ cache (invalidate c "one" None) !! getCacheKey "two" None
     = Some (CacheEntry.mk [] [] 0 false None).
Proof.
  intros c.
  destruct (invalidate_bucket c "one" "two") as (H1 & H2 & _);
    [reflexivity|reflexivity|discriminate|].
  split; [exact H1|]. rewrite H2. vm_compute. reflexivity.
Defined.

(** X3. Round trip and wholesale replacement: a [get] within the ttl of a
    [set] answers exactly what was stored, stamped with the time of the
    [set], without changing the cache; a second [set] on the key makes the
    first one unobservable; entries under other keys are not touched. *)
Theorem set_get_roundtrip (c : S3Cache) (t now : Z) (bucket : string)
        (objects : list S3Object.t) (prefixes : list S3Prefix.t)
        (isTruncated : bool) (continuationToken prefix : option string) :
  now - t <= ttl c ->
  let c' := set c t bucket objects prefixes isTruncated continuationToken
                prefix in
  get c' now bucket prefix
  = (Some (CacheEntry.mk objects prefixes t isTruncated continuationToken),
     c')
  /\ (forall t0 objects0 prefixes0 isTruncated0 continuationToken0,
        set (set c t0 bucket objects0 prefixes0 isTruncated0
                 continuationToken0 prefix)
            t bucket objects prefixes isTruncated continuationToken prefix
        = c')
  /\ (forall k, k <> getCacheKey bucket prefix ->
                cache c' !! k = cache c !! k).
Proof.
  intros Hfresh c'. repeat split.
  - apply get_fresh; [apply lookup_insert_eq|done].
  - intros. unfold c', set. simpl. by rewrite insert_insert_eq.
  - intros k Hk. unfold c', set. simpl. by rewrite lookup_insert_ne.
Qed.

Lemma set_get_roundtrip_witness :
  let c := set (newCache DEFAULT_TTL) 1000 "bkt" [] [] false None None in
  get c 301000 "bkt" None = (Some (CacheEntry.mk [] [] 1000 false None), c).
Proof.
  apply (set_get_roundtrip (newCache DEFAULT_TTL) 1000 301000 "bkt"
                           [] [] false None None).
  vm_compute. discriminate.
Defined.

Section Sweep.

Implicit Types (c : S3Cache) (now : Z).

Lemma cleanup_lookup c now k e :
  cache (cleanup c now) !! k = Some e
  <-> cache c !! k = Some e /\ now - CacheEntry.lastFetched e <= ttl c.
Proof.
  unfold cleanup. simpl. rewrite map_lookup_filter_Some. simpl.
  split.
  - intros [He Hn]. split; [done|].
    destruct (Z.gtb_spec (now - CacheEntry.lastFetched e) (ttl c)) as [|Hle];
      [|exact Hle].
    exfalso. by apply Hn.
  - intros [He Hle]. split; [done|]. intros Hgt.
    apply Is_true_true, Z.gtb_lt in Hgt. lia.
Qed.

Lemma cleanup_lookup_stale c now k e :
  cache c !! k = Some e -> now - CacheEntry.lastFetched e > ttl c ->
  cache (cleanup c now) !! k = None.
Proof.
  intros He Hstale. destruct (cache (cleanup c now) !! k) as [e'|] eqn:H;
    [|done].
  apply cleanup_lookup in H as [H1 H2]. rewrite He in H1.
  injection H1 as ->. lia.
Qed.

End Sweep.

(** X4. Sweeping: after [cleanup()] the cache holds exactly the entries
    that were fresh; a [get] at that time answers as it would have without
    the sweep and finds nothing left to evict; and sweeping after a [get]
    gives the same cache as sweeping alone. *)
Theorem cleanup_keeps_fresh (c : S3Cache) (now : Z) (bucket : string)
        (prefix : option string) :
  (forall k e,
      cache (cleanup c now) !! k = Some e
      <-> cache c !! k = Some e /\ now - CacheEntry.lastFetched e <= ttl c)
  /\ fst (get (cleanup c now) now bucket prefix)
     = fst (get c now bucket prefix)
  /\ snd (get (cleanup c now) now bucket prefix) = cleanup c now
  /\ cleanup (snd (get c now bucket prefix)) now = cleanup c now.
Proof.
  split; [intros; apply cleanup_lookup|].
  destruct (cache c !! getCacheKey bucket prefix) as [e|] eqn:He.
  - destruct (Z_le_gt_dec (now - CacheEntry.lastFetched e) (ttl c))
      as [Hfresh|Hstale].
    + rewrite (get_fresh c _ _ _ _ He Hfresh).
      rewrite (get_fresh (cleanup c now) now bucket prefix e);
        [done| by apply cleanup_lookup |done].
    + rewrite (get_stale c _ _ _ _ He Hstale).
      rewrite (get_absent (cleanup c now))
        by (by eapply cleanup_lookup_stale).
      repeat split. unfold cleanup. simpl. f_equal.
      apply map_eq. intros k. apply option_eq. intros e'.
      rewrite !map_lookup_filter_Some. simpl.
      destruct (decide (k = getCacheKey bucket prefix)) as [->|Hk].
      * rewrite lookup_delete_eq, He. split; [by intros [? ?]|].
        intros [[= ->] Hn]. exfalso. apply Hn, Is_true_true.
        apply Z.gtb_lt. lia.
      * by rewrite lookup_delete_ne.
  - rewrite (get_absent c) by done.
    rewrite (get_absent (cleanup c now)); [done|].
    unfold cleanup. simpl. apply map_lookup_filter_None. by left.
Qed.

Section CachedObjects.

Lemma allObjects_elem_of (bucketPrefix : string)
      (entries : list (string * CacheEntry.t)) (acc : list S3Object.t)
      (o : S3Object.t) :
  o ∈ fold_left
        (fun allObjects kv =>
           if Js.startsWith (fst kv) bucketPrefix
           then allObjects ++ CacheEntry.objects (snd kv)
           else allObjects)
        entries acc
  <-> o ∈ acc
      \/ exists kv, kv ∈ entries
                    /\ Js.startsWith (fst kv) bucketPrefix = true
                    /\ o ∈ CacheEntry.objects (snd kv).
Proof.
  revert acc. induction entries as [|kv entries IH]; intros acc; simpl.
  - split; [by left|]. intros [?|(kv & Hkv & _)]; [done|].
    by apply elem_of_nil in Hkv.
  - rewrite IH. destruct (Js.startsWith (fst kv) bucketPrefix) eqn:Hs.
    + rewrite elem_of_app. split.
      * intros [[?|?]|(kv' & ? & ? & ?)]; [by left| |].
        -- right. exists kv. split; [by left|done].
        -- right. exists kv'. split; [by right|done].
      * intros [?|(kv' & Hin & ? & ?)]; [by left; left|].
        apply elem_of_cons in Hin as [->|Hin]; [by left; right|].
        right. by exists kv'.
    + split.
      * intros [?|(kv' & ? & ? & ?)]; [by left|].
        right. exists kv'. split; [by right|done].
      * intros [?|(kv' & Hin & Hs' & ?)]; [by left|].
        apply elem_of_cons in Hin as [->|Hin]; [congruence|].
        right. by exists kv'.
Qed.

End CachedObjects.

(** X5. Global search pool: whatever the iteration order of the map,
    [getAllCachedObjects(bucket)] returns no object key twice, returns only
    objects cached under a key that starts with ["bucket:"], and covers the
    key of every object cached for any prefix of the bucket, fresh or
    expired. *)
Theorem getAllCachedObjects_covers (c : S3Cache)
        (entries : list (string * CacheEntry.t)) (bucket : string) :
  entries ≡ₚ map_to_list (cache c) ->
  NoDup (map S3Object.key (getAllCachedObjects entries bucket))
  /\ (forall o,
        o ∈ getAllCachedObjects entries bucket ->
        exists k e, cache c !! k = Some e
                    /\ Js.startsWith k (bucket +:+ ":") = true
                    /\ o ∈ CacheEntry.objects e)
  /\ (forall prefix e o,
        cache c !! getCacheKey bucket prefix = Some e ->
        o ∈ CacheEntry.objects e ->
        S3Object.key o ∈ map S3Object.key (getAllCachedObjects entries bucket)).
Proof.
  intros Hperm. unfold getAllCachedObjects.
  rewrite uniqueObjects_dedupFirst.
  split; [apply dedupFirst_NoDup|]. split.
  - intros o Ho.
    apply (fun H => elem_of_sublist _ _ _ H (dedupFirst_sublist _ _ _)) in Ho.
    apply allObjects_elem_of in Ho as [Ho|([k e] & Hkv & Hs & Ho)];
      [by apply elem_of_nil in Ho|].
    exists k, e. split; [|done].
    rewrite Hperm in Hkv. by apply elem_of_map_to_list in Hkv.
  - intros prefix e o He Ho.
    apply elem_of_dedupFirst_idents. split; [|apply not_elem_of_nil].
    apply list_elem_of_fmap. exists o. split; [done|].
    apply allObjects_elem_of. right.
    exists (getCacheKey bucket prefix, e). split; [|split; [|done]].
    + rewrite Hperm. by apply elem_of_map_to_list.
    + simpl. unfold getCacheKey.
      rewrite <- string_app_assoc. apply startsWith_app.
Qed.

Lemma getAllCachedObjects_covers_witness :
  let o := fun k n => S3Object.mk k n None None None in
  let c := set (set (newCache DEFAULT_TTL) 0 "bkt" [o "a" 1; o "b/c" 2] []
                    false None None)
               0 "bkt" [o "b/c" 3; o "b/d" 4] [] false None (Some "b/") in
  NoDup (map S3Object.key
             (getAllCachedObjects (map_to_list (cache c)) "bkt"))
  /\ S3Object.key (o "b/d" 4)
       ∈ map S3Object.key (getAllCachedObjects (map_to_list (cache c)) "bkt").
Proof.
  intros o c.
  destruct (getAllCachedObjects_covers c (map_to_list (cache c)) "bkt")
    as (Hnd & _ & Hcov); [done|].
  split; [exact Hnd|].
  apply (Hcov (Some "b/") (CacheEntry.mk [o "b/c" 3; o "b/d" 4] [] 0 false
                                         None)).
  - vm_compute. reflexivity.
  - apply elem_of_cons. right. apply elem_of_cons. by left.
Defined.

Section Search.

Implicit Types (s t needle : string).

Lemma string_app_empty_r s : s +:+ "" = s.
Proof.
  induction s as [|a s IH]; [done|].
  change (String a (s +:+ "") = String a s). by rewrite IH.
Qed.

Lemma includes_empty s : JsString.includes s "" = true.
Proof. by destruct s. Qed.

Lemma includes_prefix s needle :
  String.prefix needle s = true -> JsString.includes s needle = true.
Proof. intros H. destruct s; cbn [JsString.includes]; by rewrite H. Qed.

(** A needle is found wherever it occurs. *)
Lemma includes_infix pre needle post :
  JsString.includes (pre +:+ needle +:+ post) needle = true.
Proof.
  induction pre as [|a pre IH].
  - apply includes_prefix, (startsWith_app needle post).
  - change (JsString.includes (String a (pre +:+ needle +:+ post)) needle
            = true).
    cbn [JsString.includes]. rewrite IH. apply orb_true_r.
Qed.

Lemma filter_sublist {A} (f : A -> bool) (l : list A) :
  List.filter f l `sublist_of` l.
Proof.
  induction l as [|x l IH]; simpl; [done|].
  destruct (f x); [by apply sublist_skip|by apply sublist_cons].
Qed.

Lemma filter_all {A} (f : A -> bool) (l : list A) :
  (forall x, f x = true) -> List.filter f l = l.
Proof.
  intros Hf. induction l as [|x l IH]; simpl; [done|].
  by rewrite Hf, IH.
Qed.

End Search.

(** X6. Search in a cached listing, for the host's [toLowerCase] (which
    maps the empty string to itself): on a fresh entry, [searchInCache]
    returns, in listing order and without changing the cache, exactly the
    objects whose lower-cased key contains the lower-cased term; the empty
    term returns every object; and an object is found by every term whose
    lower case occurs in the lower case of its key, in particular by a term
    with the same lower case as the whole key. *)
Theorem searchInCache_finds (toLowerCase : string -> string)
        (c : S3Cache) (now : Z) (bucket : string)
        (prefix : option string) (entry : CacheEntry.t) :
  fst (get c now bucket prefix) = Some entry ->
  toLowerCase "" = "" ->
  (forall term,
      fst (searchInCache toLowerCase c now bucket term prefix)
        `sublist_of` CacheEntry.objects entry
      /\ snd (searchInCache toLowerCase c now bucket term prefix) = c
      /\ (forall o,
            o ∈ fst (searchInCache toLowerCase c now bucket term prefix)
            <-> o ∈ CacheEntry.objects entry
                /\ JsString.includes (toLowerCase (S3Object.key o))
                                     (toLowerCase term) = true))
  /\ fst (searchInCache toLowerCase c now bucket "" prefix)
     = CacheEntry.objects entry
  /\ (forall o pre post term,
        o ∈ CacheEntry.objects entry ->
        toLowerCase (S3Object.key o) = pre +:+ toLowerCase term +:+ post ->
        o ∈ fst (searchInCache toLowerCase c now bucket term prefix))
  /\ (forall o term,
        o ∈ CacheEntry.objects entry ->
        toLowerCase term = toLowerCase (S3Object.key o) ->
        o ∈ fst (searchInCache toLowerCase c now bucket term prefix)).
Proof.
  intros Hget Hempty. destruct (get_Some_inv _ _ _ _ _ Hget) as [_ Hc].
  unfold searchInCache.
  destruct (get c now bucket prefix) as [cached c1]. simpl in *. subst.
  split; [intros term; split; [apply filter_sublist|split; [done|]]|].
  { intros o. split.
    - intros H. apply list_elem_of_In, filter_In in H as [H1 H2].
      split; [by apply list_elem_of_In|done].
    - intros [H1 H2]. apply list_elem_of_In, filter_In.
      split; [by apply list_elem_of_In|done]. }
  split.
  { apply filter_all. intros o. rewrite Hempty. apply includes_empty. }
  split.
  - intros o pre post term Ho Hkey.
    apply list_elem_of_In, filter_In. split; [by apply list_elem_of_In|].
    rewrite Hkey. apply includes_infix.
  - intros o term Ho Hterm.
    apply list_elem_of_In, filter_In. split; [by apply list_elem_of_In|].
    rewrite Hterm. apply includes_prefix.
    pose proof (startsWith_app (toLowerCase (S3Object.key o)) "") as H.
    unfold Js.startsWith in H. by rewrite string_app_empty_r in H.
Qed.

Lemma searchInCache_finds_witness :
  let o := fun k => S3Object.mk k 1 None None None in
  let c := set (newCache DEFAULT_TTL) 0 "bkt"
               [o "docs/README.md"; o "src/main.ts"] [] false None None in
  fst (searchInCache (fun s => s) c 10 "bkt" "README" None)
  = [o "docs/README.md"]
  /\ fst (searchInCache (fun s => s) c 10 "bkt" "" None)
     = [o "docs/README.md"; o "src/main.ts"].
Proof.
  intros o c. split; [vm_compute; reflexivity|].
  apply (searchInCache_finds (fun s => s) c 10 "bkt" None
           (CacheEntry.mk [o "docs/README.md"; o "src/main.ts"] [] 0 false
                          None)).
  - vm_compute. reflexivity.
  - reflexivity.
Defined.

(* ===================================================================== *)
(** ** Tree consumer: refresh, load more, failures *)
(* ===================================================================== *)

Section TreeConsumer.

Variable listObjects :
  list ListCall -> string -> option string -> option string ->
  Outcome ListResult.t.

Implicit Types (w : World) (c : S3Cache) (bucket : string)
         (prefix tok : option string).

(** Whenever the cache does not answer (no fresh entry, or a token is
    given) the listing is requested, and its result decides the rest. *)
Lemma getContents_fetches w now later bucket prefix tok :
  fst (get (s3Cache w) now bucket prefix) = None \/ Js.truthy tok = true ->
  getContents listObjects w now later bucket prefix tok
  = let c1 := snd (get (s3Cache w) now bucket prefix) in
    let calls := listCalls w ++ [(bucket, prefix, tok)] in
    match listObjects (listCalls w) bucket prefix tok with
    | Throw e => (Throw e, mkWorld c1 calls)
    | Ok result =>
        (Ok (createNodes bucket result prefix),
         mkWorld
           (if Js.truthy tok
            then append c1 later bucket (ListResult.objects result)
                        (ListResult.prefixes result)
                        (ListResult.isTruncated result)
                        (ListResult.continuationToken result) prefix
            else set c1 later bucket (ListResult.objects result)
                     (ListResult.prefixes result)
                     (ListResult.isTruncated result)
                     (ListResult.continuationToken result) prefix)
           calls)
    end.
Proof.
  intros H. unfold getContents.
  destruct (get (s3Cache w) now bucket prefix) as [cached c1]. simpl in *.
  destruct cached as [entry|]; [|done].
  destruct H as [H|H]; [done|]. by rewrite H.
Qed.

Lemma getContents_calls_on_miss w now later bucket prefix :
  cache (s3Cache w) !! getCacheKey bucket prefix = None ->
  listCalls (snd (getContents listObjects w now later bucket prefix None))
  = listCalls w ++ [(bucket, prefix, None)].
Proof.
  intros Hmiss. rewrite getContents_fetches.
  - simpl. by destruct (listObjects _ _ _ _).
  - left. by rewrite get_absent.
Qed.

(** [get] never adds or changes an entry. *)
Lemma get_cache_subset c now bucket prefix k e :
  cache (snd (get c now bucket prefix)) !! k = Some e -> cache c !! k = Some e.
Proof.
  unfold get. destruct (cache c !! getCacheKey bucket prefix) as [e'|]; [|done].
  destruct (_ >? _); simpl; [|done].
  intros H. by apply lookup_delete_Some in H as [_ H].
Qed.

Lemma get_ttl c now bucket prefix : ttl (snd (get c now bucket prefix)) = ttl c.
Proof.
  unfold get. destruct (cache c !! getCacheKey bucket prefix); [|done].
  by destruct (_ >? _).
Qed.

(** A rejected read leaves the cache as the lookup left it. *)
Lemma getContents_Throw_cache w now later bucket prefix tok e :
  fst (getContents listObjects w now later bucket prefix tok) = Throw e ->
  s3Cache (snd (getContents listObjects w now later bucket prefix tok))
  = snd (get (s3Cache w) now bucket prefix).
Proof.
  unfold getContents.
  destruct (get (s3Cache w) now bucket prefix) as [cached c1]. simpl.
  destruct cached as [entry|]; [destruct (negb _); [done|]|];
    by destruct (listObjects _ _ _ _).
Qed.

Lemma invalidate_bucket_removes c bucket prefix :
  cache (invalidate c bucket None) !! getCacheKey bucket prefix = None.
Proof.
  unfold invalidate. simpl.
  apply map_lookup_filter_None. right. intros e _ Hnot.
  apply Hnot. simpl. unfold getCacheKey.
  rewrite <- string_app_assoc, startsWith_app. done.
Qed.

(** Whatever its prefix argument, [invalidate] removes the exact key and
    the bucket root. *)
Lemma invalidate_removes_key_and_root c bucket p :
  cache (invalidate c bucket (Some p)) !! getCacheKey bucket (Some p) = None
  /\ cache (invalidate c bucket (Some p)) !! getCacheKey bucket None = None.
Proof.
  destruct (Js.truthy (Some p)) eqn:Hp.
  - by apply invalidate_exact_and_root.
  - assert (invalidate c bucket (Some p) = invalidate c bucket None) as ->
        by (unfold invalidate; by rewrite Hp).
    split; apply invalidate_bucket_removes.
Qed.

Lemma truthy_Some prefix :
  Js.truthy prefix = true -> Some (default "" prefix) = prefix.
Proof. by destruct prefix. Qed.

End TreeConsumer.

(** X7. Refresh forces a refetch: after [refresh()] of the whole tree, of
    the bucket node or of the folder node itself, the next read of that
    folder and the next read of the bucket root each issue a [listObjects]
    call, at whatever time they happen. *)
Theorem refresh_forces_refetch
        (listObjects : list ListCall -> string -> option string ->
                       option string -> Outcome ListResult.t)
        (w : World) (now later : Z) (bucket p : string)
        (element : option BaseTreeNode) :
  element = None \/ element = Some (BucketNode bucket)
  \/ element = Some (PrefixNode bucket p) ->
  let w' := mkWorld (fst (refresh (s3Cache w) element)) (listCalls w) in
  listCalls (snd (getPrefixContents listObjects w' now later bucket p None))
  = listCalls w ++ [(bucket, Some p, None)]
  /\ listCalls (snd (getBucketContents listObjects w' now later bucket None))
     = listCalls w ++ [(bucket, None, None)].
Proof.
  intros Hel w'. unfold getPrefixContents, getBucketContents.
  split; apply (getContents_calls_on_miss listObjects w'); unfold w'; simpl;
    destruct Hel as [->|[->| ->]]; simpl;
    try apply lookup_empty; try apply invalidate_bucket_removes;
    apply invalidate_removes_key_and_root.
Qed.

Lemma refresh_forces_refetch_witness :
  let remote : list ListCall -> string -> option string -> option string ->
               Outcome ListResult.t :=
    fun _ _ _ _ => Ok (ListResult.mk [] [] false None) in
  let c := set (set (newCache DEFAULT_TTL) 0 "bkt" [] [] false None None)
               0 "bkt" [] [] false None (Some "a/") in
  let w' := mkWorld (fst (refresh c (Some (PrefixNode "bkt" "a/")))) [] in
  listCalls (snd (getContents remote (mkWorld c []) 1 2 "bkt" (Some "a/")
                              None)) = []
  /\ listCalls (snd (getPrefixContents remote w' 1 2 "bkt" "a/" None))
     = [("bkt", Some "a/", None)].
Proof.
  intros remote c w'. split; [vm_compute; reflexivity|].
  apply (refresh_forces_refetch remote (mkWorld c []) 1 2 "bkt" "a/"
                                (Some (PrefixNode "bkt" "a/"))).
  right. right. reflexivity.
Defined.

(** X8. Load more, then render again: with a fresh first page cached,
    [loadMore] issues one [listObjects] call with the node's token, fires
    the tree change, and leaves the merged entry; rendering the folder again
    within the ttl then shows, without another call, the folders and
    objects of both pages (first occurrences only) and a load-more node
    only as the new page says. *)
Theorem loadMore_then_render
        (listObjects : list ListCall -> string -> option string ->
                       option string -> Outcome ListResult.t)
        (w : World) (now later t t' : Z) (bucket tok : string)
        (prefix : option string) (first : CacheEntry.t)
        (page : ListResult.t) :
  prefix = None \/ Js.truthy prefix = true ->
  Js.truthy (Some tok) = true ->
  fst (get (s3Cache w) now bucket prefix) = Some first ->
  listObjects (listCalls w) bucket prefix (Some tok) = Ok page ->
  t - later <= ttl (s3Cache w) ->
  let merged :=
    CacheEntry.mk
      (uniqueObjects (CacheEntry.objects first ++ ListResult.objects page))
      (uniquePrefixes (CacheEntry.prefixes first ++ ListResult.prefixes page))
      later (ListResult.isTruncated page)
      (ListResult.continuationToken page) in
  let w1 := fst (loadMore listObjects w now later bucket prefix tok) in
  snd (loadMore listObjects w now later bucket prefix tok) = TreeChanged
  /\ listCalls w1 = listCalls w ++ [(bucket, prefix, Some tok)]
  /\ cache (s3Cache w1) !! getCacheKey bucket prefix = Some merged
  /\ getContents listObjects w1 t t' bucket prefix None
     = (Ok (map (fun p => PrefixNode bucket (S3Prefix.prefix p))
                (CacheEntry.prefixes merged)
            ++ map (fun o => ObjectNode bucket (S3Object.key o)
                                        (S3Object.size o)
                                        (S3Object.lastModified o))
                   (CacheEntry.objects merged)
            ++ sentinel bucket prefix (ListResult.isTruncated page)
                        (ListResult.continuationToken page)),
        w1).
Proof.
  intros Hprefix Htok Hget Hlist Hfresh merged w1.
  destruct (get_Some_inv _ _ _ _ _ Hget) as [Hin Hc].
  assert (loadMore listObjects w now later bucket prefix tok
          = (mkWorld
               (mkCache (<[getCacheKey bucket prefix := merged]>
                           (cache (s3Cache w)))
                        (ttl (s3Cache w)))
               (listCalls w ++ [(bucket, prefix, Some tok)]),
             TreeChanged)) as Hload.
  { unfold loadMore, getPrefixContents, getBucketContents.
    assert (getContents listObjects w now later bucket prefix (Some tok)
            = (Ok (createNodes bucket page prefix),
               mkWorld
                 (mkCache (<[getCacheKey bucket prefix := merged]>
                             (cache (s3Cache w)))
                          (ttl (s3Cache w)))
                 (listCalls w ++ [(bucket, prefix, Some tok)]))) as Hgc.
    { rewrite getContents_fetches by (by right).
      cbv zeta. rewrite Hlist, Htok, Hc. f_equal. f_equal.
      by apply append_existing. }
    destruct Hprefix as [->|Hp].
    - simpl. by rewrite Hgc.
    - rewrite Hp, (truthy_Some _ Hp). by rewrite Hgc. }
  unfold w1. rewrite Hload. simpl.
  split; [done|]. split; [done|]. split; [apply lookup_insert_eq|].
  rewrite (getContents_hit _ _ _ _ _ _ merged).
  - by rewrite createNodesFromCache_unfold.
  - simpl. rewrite (get_fresh _ t bucket prefix merged); [done| |done].
    simpl. apply lookup_insert_eq.
Qed.

Lemma loadMore_then_render_witness :
  let o := fun k => S3Object.mk k 1 None None None in
  let remote : list ListCall -> string -> option string -> option string ->
               Outcome ListResult.t :=
    fun _ _ _ _ => Ok (ListResult.mk [o "b"; o "c"] [] false None) in
  let w := mkWorld (set (newCache DEFAULT_TTL) 0 "bkt" [o "a"; o "b"] [] true
                        (Some "tok") None) [] in
  let w1 := fst (loadMore remote w 10 20 "bkt" None "tok") in
  getContents remote w1 30 40 "bkt" None None
  = (Ok [ObjectNode "bkt" "a" 1 None; ObjectNode "bkt" "b" 1 None;
         ObjectNode "bkt" "c" 1 None], w1).
Proof.
  intros o remote w w1.
  refine (proj2 (proj2 (proj2
            (loadMore_then_render remote w 10 20 30 40 "bkt" "tok" None
               (CacheEntry.mk [o "a"; o "b"] [] 0 true (Some "tok"))
               (ListResult.mk [o "b"; o "c"] [] false None) _ _ _ _ _)))).
  - by left.
  - reflexivity.
  - vm_compute. reflexivity.
  - reflexivity.
  - vm_compute. discriminate.
Defined.

(** X9. Load more after the first page expired: when the cached entry is
    older than the ttl at the time of [loadMore], the lookup evicts it and
    the continuation page is stored on its own; the first page is gone from
    the cache. *)
Theorem loadMore_after_expiry
        (listObjects : list ListCall -> string -> option string ->
                       option string -> Outcome ListResult.t)
        (w : World) (now later : Z) (bucket tok : string)
        (prefix : option string) (first : CacheEntry.t)
        (page : ListResult.t) :
  prefix = None \/ Js.truthy prefix = true ->
  Js.truthy (Some tok) = true ->
  cache (s3Cache w) !! getCacheKey bucket prefix = Some first ->
  now - CacheEntry.lastFetched first > ttl (s3Cache w) ->
  listObjects (listCalls w) bucket prefix (Some tok) = Ok page ->
  cache (s3Cache (fst (loadMore listObjects w now later bucket prefix tok)))
    !! getCacheKey bucket prefix
  = Some (CacheEntry.mk (ListResult.objects page) (ListResult.prefixes page)
                        later (ListResult.isTruncated page)
                        (ListResult.continuationToken page)).
Proof.
  intros Hprefix Htok Hin Hstale Hlist.
  assert (fst (loadMore listObjects w now later bucket prefix tok)
          = snd (getContents listObjects w now later bucket prefix
                             (Some tok))) as ->.
  { unfold loadMore, getPrefixContents, getBucketContents.
    destruct Hprefix as [->|Hp]; simpl.
    - by destruct (getContents _ _ _ _ _ _ _) as [[?|?] ?].
    - rewrite Hp, (truthy_Some _ Hp).
      by destruct (getContents _ _ _ _ _ _ _) as [[?|?] ?]. }
  rewrite getContents_fetches by (by right).
  cbv zeta. rewrite Hlist, Htok.
  rewrite (get_stale _ _ _ _ _ Hin Hstale). cbn [snd fst s3Cache].
  rewrite append_absent by (simpl; apply lookup_delete_eq).
  simpl. apply lookup_insert_eq.
Qed.

Lemma loadMore_after_expiry_witness :
  let o := fun k => S3Object.mk k 1 None None None in
  let remote : list ListCall -> string -> option string -> option string ->
               Outcome ListResult.t :=
    fun _ _ _ _ => Ok (ListResult.mk [o "c"] [] false None) in
  let w := mkWorld (set (newCache 100) 0 "bkt" [o "a"; o "b"] [] true
                        (Some "tok") None) [] in
  cache (s3Cache (fst (loadMore remote w 500 510 "bkt" None "tok")))
    !! getCacheKey "bkt" None
  = Some (CacheEntry.mk [o "c"] [] 510 false None).
Proof.
  intros o remote w.
  apply (loadMore_after_expiry remote w 500 510 "bkt" "tok" None
           (CacheEntry.mk [o "a"; o "b"] [] 0 true (Some "tok"))
           (ListResult.mk [o "c"] [] false None));
    try (vm_compute; done).
  by left.
Defined.

Section FailedRead.

Variable listObjects :
  list ListCall -> string -> option string -> option string ->
  Outcome ListResult.t.

(** The only entry a [get] can take away is the stale entry of its key. *)
Lemma get_cache_lost (c : S3Cache) (now : Z) (bucket : string)
      (prefix : option string) (k : string) (e : CacheEntry.t) :
  cache c !! k = Some e ->
  cache (snd (get c now bucket prefix)) !! k = Some e
  \/ (cache (snd (get c now bucket prefix)) !! k = None
      /\ k = getCacheKey bucket prefix
      /\ now - CacheEntry.lastFetched e > ttl c).
Proof.
  intros Hk. unfold get.
  destruct (cache c !! getCacheKey bucket prefix) as [e'|] eqn:He';
    [|by left].
  destruct (Z.gtb_spec (now - CacheEntry.lastFetched e') (ttl c)) as [Hgt|];
    simpl; [|by left].
  destruct (decide (k = getCacheKey bucket prefix)) as [->|Hne].
  - right. rewrite lookup_delete_eq. rewrite He' in Hk.
    injection Hk as ->. split; [done|]. split; [done|lia].
  - left. by rewrite lookup_delete_ne.
Qed.

(** A rejected read has issued its one listing call. *)
Lemma getContents_Throw_calls (w : World) (now later : Z) (bucket : string)
      (prefix tok : option string) (e : Error) :
  fst (getContents listObjects w now later bucket prefix tok) = Throw e ->
  listCalls (snd (getContents listObjects w now later bucket prefix tok))
  = listCalls w ++ [(bucket, prefix, tok)].
Proof.
  unfold getContents.
  destruct (get (s3Cache w) now bucket prefix) as [cached c1]. simpl.
  destruct cached as [entry|]; [destruct (negb _); [done|]|];
    by destruct (listObjects _ _ _ _).
Qed.

End FailedRead.

(** X10. A failed listing is only reported: when [getChildren] shows an
    error it returns no children; the cache is then exactly what the lookup
    of the requested key left behind (untouched for the tree root): no
    entry was added or changed, and the only entry that can be missing is
    the entry of the requested key, and only if it was older than the ttl;
    the failed read issued its one [listObjects] call (none for the tree
    root). *)
Theorem getChildren_failure
        (listObjects : list ListCall -> string -> option string ->
                       option string -> Outcome ListResult.t)
        (listBuckets : list ListCall -> Outcome (list S3Bucket.t))
        (isAuthError : Error -> bool)
        (w w' : World) (now later : Z) (element : option BaseTreeNode)
        (nodes : list BaseTreeNode) (note : Notification) :
  getChildren listObjects listBuckets isAuthError w now later element
  = (nodes, w', Some note) ->
  nodes = []
  /\ ttl (s3Cache w') = ttl (s3Cache w)
  /\ (forall k e, cache (s3Cache w') !! k = Some e ->
                  cache (s3Cache w) !! k = Some e)
  /\ s3Cache w'
     = match listedKey element with
       | Some (bucket, prefix) => snd (get (s3Cache w) now bucket prefix)
       | None => s3Cache w
       end
  /\ (forall k e,
        cache (s3Cache w) !! k = Some e ->
        cache (s3Cache w') !! k = Some e
        \/ (cache (s3Cache w') !! k = None
            /\ now - CacheEntry.lastFetched e > ttl (s3Cache w)
            /\ exists bucket prefix,
                listedKey element = Some (bucket, prefix)
                /\ k = getCacheKey bucket prefix))
  /\ listCalls w'
     = match listedKey element with
       | Some (bucket, prefix) => listCalls w ++ [(bucket, prefix, None)]
       | None => listCalls w
       end.
Proof.
  unfold getChildren.
  assert (forall bucket prefix,
             match getContents listObjects w now later bucket prefix None with
             | (Ok nodes0, w0) => (nodes0, w0, None)
             | (Throw error, w0) =>
                 if isAuthError error
                 then ([], w0, Some AuthenticationFailed)
                 else ([], w0, Some (ErrorLoadingData error))
             end = (nodes, w', Some note) ->
             nodes = []
             /\ ttl (s3Cache w') = ttl (s3Cache w)
             /\ (forall k e, cache (s3Cache w') !! k = Some e ->
                             cache (s3Cache w) !! k = Some e)
             /\ s3Cache w' = snd (get (s3Cache w) now bucket prefix)
             /\ (forall k e,
                   cache (s3Cache w) !! k = Some e ->
                   cache (s3Cache w') !! k = Some e
                   \/ (cache (s3Cache w') !! k = None
                       /\ now - CacheEntry.lastFetched e > ttl (s3Cache w)
                       /\ k = getCacheKey bucket prefix))
             /\ listCalls w' = listCalls w ++ [(bucket, prefix, None)])
    as Hread.
  { intros bucket prefix.
    pose proof (getContents_Throw_cache listObjects w now later bucket prefix
                                        None) as Hc.
    pose proof (getContents_Throw_calls listObjects w now later bucket prefix
                                        None) as Hl.
    destruct (getContents listObjects w now later bucket prefix None)
      as [[ns|e] w0]; [done|].
    specialize (Hc e eq_refl). specialize (Hl e eq_refl). simpl in Hc, Hl.
    intros H.
    assert (nodes = [] /\ w0 = w') as [-> <-]
        by (destruct (isAuthError e); by injection H).
    rewrite Hc. split; [done|]. split; [apply get_ttl|].
    split; [intros k e'; apply get_cache_subset|].
    split; [done|]. split; [|done].
    intros k e' Hk.
    destruct (get_cache_lost (s3Cache w) now bucket prefix k e' Hk)
      as [?|(? & ? & ?)]; [by left|by right]. }
  destruct element as [[b|b p|b k s lm|b p tk]|].
  - intros H. destruct (Hread b None H) as (H1 & H2 & H3 & H4 & H5 & H6).
    repeat split; try done.
    intros k e Hk. destruct (H5 k e Hk) as [?|(? & ? & ?)]; [by left|].
    right. repeat split; try done. by exists b, None.
  - intros H. destruct (Hread b (Some p) H) as (H1 & H2 & H3 & H4 & H5 & H6).
    repeat split; try done.
    intros k e Hk. destruct (H5 k e Hk) as [?|(? & ? & ?)]; [by left|].
    right. repeat split; try done. by exists b, (Some p).
  - done.
  - done.
  - unfold getBuckets. destruct (listBuckets (listCalls w)) as [bs|e]; [done|].
    intros H.
    assert (nodes = [] /\ w = w') as [-> <-]
        by (destruct (isAuthError e); by injection H).
    repeat split; try done. intros k e' Hk. by left.
Qed.

Lemma getChildren_failure_witness :
  let remote : list ListCall -> string -> option string -> option string ->
               Outcome ListResult.t :=
    fun _ _ _ _ => Throw (S3Error "SlowDown") in
  let c := set (set (newCache 100) 0 "bkt" [] [] false None None)
               450 "bkt" [] [] false None (Some "a/") in
  let w' := mkWorld (set (newCache 100) 450 "bkt" [] [] false None
                         (Some "a/"))
                    [("bkt", None, None)] in
  getChildren remote (fun _ => Ok []) (fun _ => false) (mkWorld c []) 500 510
              (Some (BucketNode "bkt"))
  = ([], w', Some (ErrorLoadingData (S3Error "SlowDown")))
  /\ s3Cache w' = snd (get c 500 "bkt" None).
Proof.
  intros remote c w'.
  assert (getChildren remote (fun _ => Ok []) (fun _ => false) (mkWorld c [])
                      500 510 (Some (BucketNode "bkt"))
          = ([], w', Some (ErrorLoadingData (S3Error "SlowDown")))) as H
      by (vm_compute; reflexivity).
  split; [exact H|].
  exact (proj1 (proj2 (proj2 (proj2
           (getChildren_failure _ _ _ _ _ _ _ _ _ _ H))))).
Defined.

(* ===================================================================== *)
(** ** Virtual filesystem: stat, createDirectory, writeFile *)
(* ===================================================================== *)

Section ProviderFacts.

Implicit Types (s key bucket : string) (fs : Fs).

Lemma string_length_app s t :
  String.length (s +:+ t) = (String.length s + String.length t)%nat.
Proof.
  induction s as [|a s IH]; [done|].
  change (S (String.length (s +:+ t))
          = S (String.length s + String.length t)). by rewrite IH.
Qed.

Lemma substring_tail s t :
  String.substring (String.length s) (String.length t) (s +:+ t) = t.
Proof.
  induction s as [|a s IH].
  - change (String.substring 0 (String.length t) t = t).
    induction t as [|b t IHt]; simpl; [done|]. by rewrite IHt.
  - exact IH.
Qed.

Lemma endsWith_app s t : Js.endsWith (s +:+ t) t = true.
Proof.
  unfold Js.endsWith. rewrite string_length_app.
  rewrite (proj2 (Nat.leb_le _ _)) by lia.
  replace (String.length s + String.length t - String.length t)%nat
    with (String.length s) by lia.
  rewrite substring_tail. apply String.eqb_refl.
Qed.

Lemma substring_head s t :
  String.substring 0 (String.length s) (s +:+ t) = s.
Proof.
  induction s as [|a s IH]; [by destruct t|].
  change (String a (String.substring 0 (String.length s) (s +:+ t))
          = String a s). by rewrite IH.
Qed.

Lemma sliceInit_slash s : Js.sliceInit (s +:+ "/") = s.
Proof.
  unfold Js.sliceInit. rewrite string_length_app.
  replace (String.length s + String.length "/" - 1)%nat
    with (String.length s) by (simpl; lia).
  apply substring_head.
Qed.

Lemma truthy_false_empty s : Js.truthy (Some s) = false <-> s = "".
Proof. by destruct s. Qed.

Lemma putCalls_app (l1 l2 : list RemoteCall) :
  putCalls (l1 ++ l2) = putCalls l1 ++ putCalls l2.
Proof. apply List.filter_app. Qed.

End ProviderFacts.

Section StatFacts.

Variable getObjectMetadataRemote :
  list RemoteCall -> string -> string -> Settled ObjectMetadata.t.

Lemma orNumber_zero (x : option Z) : orNumber x 0 = default 0 x.
Proof. destruct x as [n|]; simpl; [|done]. by destruct (Z.eqb_spec n 0). Qed.

Lemma stat_dir (now1 now2 : Z) (bucket key : string) (fs : Fs) :
  key = "" \/ Js.endsWith key "/" = true ->
  stat getObjectMetadataRemote now1 now2 bucket key fs
  = (Fulfilled (FileStat.mk Directory now1 now2 0), fs).
Proof.
  intros H. unfold stat, tryCatch, ret.
  destruct key as [|a key]; [done|].
  destruct H as [H|H]; [done|].
  cbn [Js.truthy negb orb String.eqb]. by rewrite H.
Qed.

Lemma stat_file (now1 now2 : Z) (bucket key : string) (fs : Fs) :
  key <> "" -> Js.endsWith key "/" = false ->
  stat getObjectMetadataRemote now1 now2 bucket key fs
  = (match getObjectMetadataRemote (remoteCalls fs) bucket key with
     | Fulfilled metadata =>
         Fulfilled
           (FileStat.mk File
              (orNumber (ObjectMetadata.lastModified metadata) now1)
              (orNumber (ObjectMetadata.lastModified metadata) now2)
              (default 0 (ObjectMetadata.contentLength metadata)))
     | Rejected error =>
         Rejected
           (ExFileSystemError
              (if isNoSuchKey error then FileSystemError.FileNotFound
               else FileSystemError.Unavailable))
     end,
     mkFs (remoteCalls fs ++ [GetObjectMetadata bucket key]) (firedSoon fs)).
Proof.
  intros Hk He. unfold stat, tryCatch, bind, ret, throw, getObjectMetadata.
  destruct key as [|a key]; [done|].
  cbn [Js.truthy negb orb String.eqb]. rewrite He.
  destruct (getObjectMetadataRemote _ _ _) as [md|e].
  - by rewrite orNumber_zero.
  - by destruct (isNoSuchKey e).
Qed.

End StatFacts.

(** X11. [stat] tells directories by the key alone: the bucket root and
    every key ending in a slash is a directory of size 0, answered without
    any storage call; any other key costs exactly one [getObjectMetadata]
    call and is answered as a file (size [contentLength], 0 when missing),
    as [FileNotFound] when the call fails with [NoSuchKey], and as
    [Unavailable] on every other failure. *)
Theorem stat_directory_by_key
        (getObjectMetadataRemote :
           list RemoteCall -> string -> string -> Settled ObjectMetadata.t)
        (now1 now2 : Z) (bucket key : string) (fs : Fs) :
  let r := stat getObjectMetadataRemote now1 now2 bucket key fs in
  firedSoon (snd r) = firedSoon fs
  /\ (fst r = Fulfilled (FileStat.mk Directory now1 now2 0)
      <-> key = "" \/ Js.endsWith key "/" = true)
  /\ (key = "" \/ Js.endsWith key "/" = true -> snd r = fs)
  /\ (key <> "" -> Js.endsWith key "/" = false ->
      remoteCalls (snd r) = remoteCalls fs ++ [GetObjectMetadata bucket key]
      /\ fst r
         = match getObjectMetadataRemote (remoteCalls fs) bucket key with
           | Fulfilled metadata =>
               Fulfilled
                 (FileStat.mk File
                    (orNumber (ObjectMetadata.lastModified metadata) now1)
                    (orNumber (ObjectMetadata.lastModified metadata) now2)
                    (default 0 (ObjectMetadata.contentLength metadata)))
           | Rejected error =>
               Rejected
                 (ExFileSystemError
                    (if isNoSuchKey error then FileSystemError.FileNotFound
                     else FileSystemError.Unavailable))
           end).
Proof.
  intros r. unfold r. clear r.
  destruct (decide (key = "" \/ Js.endsWith key "/" = true)) as [Hdir|Hfile].
  - rewrite (stat_dir _ _ _ _ _ _ Hdir). simpl.
    split; [done|]. split; [by split|]. split; [done|].
    intros Hk He. destruct Hdir; congruence.
  - assert (key <> "" /\ Js.endsWith key "/" = false) as [Hk He].
    { split; [tauto|]. destruct (Js.endsWith key "/"); tauto. }
    rewrite (stat_file _ _ _ _ _ _ Hk He). simpl.
    split; [done|]. split; [|split; [tauto|done]].
    split; [|tauto]. by destruct (getObjectMetadataRemote _ _ _).
Qed.

Lemma stat_directory_by_key_witness :
  let missing : list RemoteCall -> string -> string ->
                Settled ObjectMetadata.t :=
    fun _ _ _ => Rejected (ExS3Error "NoSuchKey") in
  fst (stat missing 7 8 "bkt" "a/" (mkFs [] []))
  = Fulfilled (FileStat.mk Directory 7 8 0)
  /\ stat missing 7 8 "bkt" "a" (mkFs [] [])
     = (Rejected (ExFileSystemError FileSystemError.FileNotFound),
        mkFs [GetObjectMetadata "bkt" "a"] []).
Proof.
  intros missing. split; [|vm_compute; reflexivity].
  apply (proj1 (proj2 (stat_directory_by_key missing 7 8 "bkt" "a/"
                                             (mkFs [] [])))).
  right. reflexivity.
Defined.

(** X12. [createDirectory] writes one folder marker: for a non-empty key
    it issues exactly one [putObject] of an empty object with content type
    [application/x-directory] under the key with one trailing slash (added
    only when missing), fires [Created] when the put succeeds and reports
    any failure as [Unavailable]; on the bucket root it issues no call and
    the rejection is [Unavailable] as well. *)
Theorem createDirectory_marker
        (putObjectRemote :
           list RemoteCall -> string -> string -> list Byte.byte ->
           option string -> Settled unit)
        (bucket key : string) (fs : Fs) :
  let r := createDirectory putObjectRemote bucket key fs in
  (key = "" ->
   r = (Rejected (ExFileSystemError FileSystemError.Unavailable), fs))
  /\ (key <> "" ->
      exists folderKey,
        Js.endsWith folderKey "/" = true
        /\ Js.stripTrailingSlash folderKey = Js.stripTrailingSlash key
        /\ remoteCalls (snd r)
           = remoteCalls fs
             ++ [PutObject bucket folderKey []
                           (Some "application/x-directory")]
        /\ match putObjectRemote (remoteCalls fs) bucket folderKey []
                                 (Some "application/x-directory") with
           | Fulfilled _ =>
               fst r = Fulfilled tt
               /\ firedSoon (snd r) = firedSoon fs ++ [(Created, (bucket, key))]
           | Rejected _ =>
               fst r = Rejected (ExFileSystemError FileSystemError.Unavailable)
               /\ firedSoon (snd r) = firedSoon fs
           end).
Proof.
  intros r. unfold r, createDirectory, tryCatch, bind, throw, putObject,
              fireSoon.
  split; [by intros ->|]. intros Hkey.
  destruct key as [|a key]; [done|]. cbn [Js.truthy negb].
  set (key' := String a key).
  exists (if Js.endsWith key' "/" then key' else key' +:+ "/").
  split; [|split].
  - destruct (Js.endsWith key' "/") eqn:H; [done|apply endsWith_app].
  - destruct (Js.endsWith key' "/") eqn:H; [done|].
    unfold Js.stripTrailingSlash. rewrite endsWith_app, H.
    apply sliceInit_slash.
  - destruct (putObjectRemote _ _ _ _ _) as [[]|e]; simpl; done.
Qed.

Lemma createDirectory_marker_witness :
  let remote : list RemoteCall -> string -> string -> list Byte.byte ->
               option string -> Settled unit :=
    fun _ _ _ _ _ => Fulfilled tt in
  createDirectory remote "bkt" "" (mkFs [] [])
  = (Rejected (ExFileSystemError FileSystemError.Unavailable), mkFs [] [])
  /\ createDirectory remote "bkt" "a/b" (mkFs [] [])
     = (Fulfilled tt,
        mkFs [PutObject "bkt" "a/b/" [] (Some "application/x-directory")]
             [(Created, ("bkt", "a/b"))]).
Proof.
  intros remote. split; [|vm_compute; reflexivity].
  apply (proj1 (createDirectory_marker remote "bkt" "" (mkFs [] []))).
  reflexivity.
Defined.

(** X13. [writeFile] respects [create] and [overwrite]: it issues at most
    one [putObject], always for the given key and content; when
    [overwrite] is off it writes only after a probe failed with
    [NoSuchKey], and when [create] is off only after a probe found the
    object; it fires [Changed] exactly when it fulfils; and whatever goes
    wrong, it rejects with a [FileSystemError]. *)
Theorem writeFile_guards
        (getObjectMetadataRemote :
           list RemoteCall -> string -> string -> Settled ObjectMetadata.t)
        (putObjectRemote :
           list RemoteCall -> string -> string -> list Byte.byte ->
           option string -> Settled unit)
        (bucket key : string) (content : list Byte.byte)
        (create overwrite : bool) (fs : Fs) :
  let r := writeFile getObjectMetadataRemote putObjectRemote bucket key
                     content create overwrite fs in
  let probe1 := getObjectMetadataRemote (remoteCalls fs) bucket key in
  let probe2 :=
    getObjectMetadataRemote
      (if overwrite then remoteCalls fs
       else remoteCalls fs ++ [GetObjectMetadata bucket key])
      bucket key in
  (putCalls (remoteCalls (snd r)) = putCalls (remoteCalls fs)
   \/ (putCalls (remoteCalls (snd r))
       = putCalls (remoteCalls fs) ++ [PutObject bucket key content None]
       /\ key <> ""
       /\ (overwrite = false ->
           exists error, probe1 = Rejected error /\ isNoSuchKey error = true)
       /\ (create = false -> exists metadata, probe2 = Fulfilled metadata)))
  /\ (fst r = Fulfilled tt
      /\ firedSoon (snd r) = firedSoon fs ++ [(Changed, (bucket, key))]
      \/ (exists e, fst r = Rejected (ExFileSystemError e))
         /\ firedSoon (snd r) = firedSoon fs).
Proof.
  intros r probe1 probe2. unfold r, probe1, probe2.
  unfold writeFile, tryCatch, bind, ret, throw, getObjectMetadata, putObject,
    fireSoon.
  destruct key as [|a key]; [simpl; split; [by left|right; eauto]|].
  cbn [Js.truthy negb]. set (k := String a key).
  destruct overwrite, create; cbn [negb remoteCalls firedSoon];
    repeat match goal with
           | |- context [getObjectMetadataRemote ?c ?b ?x] =>
               let H := fresh "Hmd" in
               destruct (getObjectMetadataRemote c b x) as [?|?] eqn:H;
               cbn [remoteCalls firedSoon isFileSystemError negb]
           | |- context [isNoSuchKey ?e] =>
               let H := fresh "Hnsk" in
               destruct (isNoSuchKey e) eqn:H;
               cbn [remoteCalls firedSoon isFileSystemError negb]
           | |- context [putObjectRemote ?c ?b ?x ?y ?z] =>
               destruct (putObjectRemote c b x y z) as [[]|?];
               cbn [remoteCalls firedSoon isFileSystemError negb]
           | |- context [isFileSystemError ?e] =>
               let H := fresh "Hfs" in
               destruct e eqn:H;
               cbn [remoteCalls firedSoon isFileSystemError negb]
           end;
    cbn [fst snd remoteCalls firedSoon];
    rewrite ?putCalls_app; cbn [putCalls List.filter]; rewrite ?app_nil_r;
    (split;
     [ first [ left; reflexivity
             | right; repeat split; try done; eauto ]
     | first [ left; split; reflexivity
             | right; split; [eauto|reflexivity] ] ]).
Qed.

Lemma writeFile_guards_witness :
  let absent : list RemoteCall -> string -> string ->
               Settled ObjectMetadata.t :=
    fun _ _ _ => Rejected (ExS3Error "NoSuchKey") in
  let put : list RemoteCall -> string -> string -> list Byte.byte ->
            option string -> Settled unit :=
    fun _ _ _ _ _ => Fulfilled tt in
  writeFile absent put "bkt" "a.txt" [] true false (mkFs [] [])
  = (Fulfilled tt,
     mkFs [GetObjectMetadata "bkt" "a.txt"; PutObject "bkt" "a.txt" [] None]
          [(Changed, ("bkt", "a.txt"))])
  /\ writeFile absent put "bkt" "a.txt" [] false true (mkFs [] [])
     = (Rejected (ExFileSystemError FileSystemError.FileNotFound),
        mkFs [GetObjectMetadata "bkt" "a.txt"] [])
  /\ (putCalls (remoteCalls
                  (snd (writeFile absent put "bkt" "a.txt" [] false false
                                  (mkFs [] []))))
      = putCalls []
      \/ exists metadata,
          absent [GetObjectMetadata "bkt" "a.txt"] "bkt" "a.txt"
          = Fulfilled metadata).
Proof.
  intros absent put.
  split; [vm_compute; reflexivity|]. split; [vm_compute; reflexivity|].
  destruct (proj1 (writeFile_guards absent put "bkt" "a.txt" [] false false
                                    (mkFs [] [])))
    as [H|(_ & _ & _ & H)].
  - left. exact H.
  - right. apply H. reflexivity.
Defined.

(* ===================================================================== *)
(** ** Virtual filesystem: delete *)
(* ===================================================================== *)

Section Batches.

Implicit Types (keys : list string) (fuel i : nat).

Lemma batchesFrom_concat fuel i keys :
  (length keys - i <= fuel)%nat ->
  concat (batchesFrom fuel i keys) = drop i keys.
Proof.
  revert i. induction fuel as [|fuel IH]; intros i Hfuel; simpl.
  - symmetry. apply drop_ge. lia.
  - destruct (Nat.ltb_spec i (length keys)) as [Hlt|Hge].
    + simpl. rewrite IH by lia. unfold sliceRange.
      replace (i + 1000 - i)%nat with 1000%nat by lia.
      rewrite <- drop_drop. apply take_drop.
    + symmetry. by apply drop_ge.
Qed.

Lemma batchesFrom_sizes fuel i keys :
  Forall (fun batch => (1 <= length batch <= 1000)%nat)
         (batchesFrom fuel i keys).
Proof.
  revert i. induction fuel as [|fuel IH]; intros i; simpl; [constructor|].
  destruct (Nat.ltb_spec i (length keys)) as [Hlt|Hge]; [|constructor].
  constructor; [|apply IH].
  unfold sliceRange. rewrite length_take, length_drop. lia.
Qed.

End Batches.

(** X14. The batches of a recursive delete partition the keys: put end to
    end they are the keys to delete, each once and in order, and every batch
    holds between 1 and 1000 keys. *)
Theorem deleteBatches_partition (keys : list string) :
  concat (deleteBatches keys) = keys
  /\ Forall (fun batch => (1 <= length batch <= 1000)%nat)
            (deleteBatches keys).
Proof.
  split; [|apply batchesFrom_sizes].
  unfold deleteBatches. rewrite batchesFrom_concat by lia. apply drop_0.
Qed.

Section DeleteFacts.

Import S3FileSystemProvider.

Variable getObjectMetadataRemote :
  list RemoteCall -> string -> string -> Settled ObjectMetadata.t.
Variable listObjectsRemote :
  list RemoteCall -> string -> option string -> option string ->
  Settled ListResult.t.
Variable deleteObjectRemote : list RemoteCall -> string -> string ->
                              Settled unit.
Variable firstToReject : list Exception -> Exception.

Implicit Types (fs : Fs) (bucket key : string) (batch : list string).

(** A batch whose deletions all succeed issues one call per key, in
    order, and reports no rejection. *)
Lemma startAll_success bucket batch fs :
  (forall calls k, k ∈ batch ->
                   deleteObjectRemote calls bucket k = Fulfilled tt) ->
  startAll (map (fun k => deleteObject deleteObjectRemote bucket k) batch) fs
  = ([], mkFs (remoteCalls fs ++ map (DeleteObject bucket) batch)
              (firedSoon fs)).
Proof.
  revert fs. induction batch as [|k batch IH]; intros fs Hok; simpl.
  - rewrite app_nil_r. by destruct fs.
  - unfold deleteObject at 1. rewrite Hok by (by left).
    rewrite IH by (intros calls k' Hk'; apply Hok; by right).
    simpl. by rewrite <- app_assoc.
Qed.

Lemma deleteInBatches_success bucket (batches : list (list string)) fs :
  (forall calls k, k ∈ concat batches ->
                   deleteObjectRemote calls bucket k = Fulfilled tt) ->
  deleteInBatches deleteObjectRemote firstToReject bucket batches fs
  = (Fulfilled tt,
     mkFs (remoteCalls fs ++ map (DeleteObject bucket) (concat batches))
          (firedSoon fs)).
Proof.
  revert fs. induction batches as [|batch batches IH]; intros fs Hok; simpl.
  - unfold ret. rewrite app_nil_r. by destruct fs.
  - unfold bind, promiseAll.
    rewrite startAll_success
      by (intros calls k Hk; apply Hok; simpl; apply elem_of_app; by left).
    rewrite IH
      by (intros calls k Hk; apply Hok; simpl; apply elem_of_app; by right).
    simpl. by rewrite map_app, app_assoc.
Qed.

Lemma readDirectoryAsync_listing bucket key fs :
  key <> "" ->
  readDirectoryAsync listObjectsRemote bucket key fs
  = (match listObjectsRemote (remoteCalls fs) bucket (Some key) None with
     | Fulfilled result => Fulfilled (directoryEntries (Some key) result)
     | Rejected _ => Rejected (ExFileSystemError FileSystemError.Unavailable)
     end,
     mkFs (remoteCalls fs ++ [ListObjects bucket (Some key) None])
          (firedSoon fs)).
Proof.
  intros Hkey. destruct key as [|a key]; [done|].
  unfold readDirectoryAsync, tryCatch, bind, listObjectsAsync, ret, throw.
  cbn [Js.truthy]. by destruct (listObjectsRemote _ _ _ _).
Qed.

End DeleteFacts.

(** X15. What [delete] refuses: the bucket root is rejected with
    [NoPermissions] before any storage call; and a directory that still
    lists an entry is, without [recursive], rejected with [NoPermissions]
    ("Directory not empty") after the one listing call, with no
    [deleteObject] issued and no event fired. *)
Theorem delete_refuses
        (getObjectMetadataRemote :
           list RemoteCall -> string -> string -> Settled ObjectMetadata.t)
        (listObjectsRemote :
           list RemoteCall -> string -> option string -> option string ->
           Settled ListResult.t)
        (deleteObjectRemote : list RemoteCall -> string -> string ->
                              Settled unit)
        (firstToReject : list Exception -> Exception)
        (now1 now2 : Z) (bucket key : string) (recursive : bool)
        (result : ListResult.t) (fs : Fs) :
  Js.endsWith key "/" = true ->
  listObjectsRemote (remoteCalls fs) bucket (Some key) None
  = Fulfilled result ->
  directoryEntries (Some key) result <> [] ->
  S3FileSystemProvider.delete
    getObjectMetadataRemote listObjectsRemote deleteObjectRemote
    firstToReject now1 now2 bucket key false fs
  = (Rejected (ExFileSystemError
                 (FileSystemError.NoPermissions "Directory not empty")),
     mkFs (remoteCalls fs ++ [ListObjects bucket (Some key) None])
          (firedSoon fs))
  /\ S3FileSystemProvider.delete
       getObjectMetadataRemote listObjectsRemote deleteObjectRemote
       firstToReject now1 now2 bucket "" recursive fs
     = (Rejected (ExFileSystemError
                    (FileSystemError.NoPermissions
                       "Cannot delete buckets through filesystem")),
        fs).
Proof.
  intros Hdir Hlist Hentries. split; [|reflexivity].
  unfold S3FileSystemProvider.delete.
  destruct key as [|a key]; [done|]. cbn [Js.truthy negb].
  remember (String a key) as k eqn:Hk.
  assert (k <> "") as Hne by (by subst).
  clear a key Hk.
  unfold tryCatch, bind.
  rewrite stat_dir by (by right). cbn [FileStat.type negb]. cbv beta iota.
  rewrite readDirectoryAsync_listing by done. rewrite Hlist.
  destruct (directoryEntries (Some k) result) as [|e es]; [done|].
  reflexivity.
Qed.

Lemma delete_refuses_witness :
  let listing : list RemoteCall -> string -> option string ->
                option string -> Settled ListResult.t :=
    fun _ _ _ _ =>
      Fulfilled (ListResult.mk [S3Object.mk "a/x.txt" 1 None None None] []
                               false None) in
  S3FileSystemProvider.delete
    (fun _ _ _ => Rejected (ExOther "unused")) listing
    (fun _ _ _ => Fulfilled tt) (fun _ => ExOther "unused")
    0 0 "bkt" "a/" false (mkFs [] [])
  = (Rejected (ExFileSystemError
                 (FileSystemError.NoPermissions "Directory not empty")),
     mkFs [ListObjects "bkt" (Some "a/") None] []).
Proof.
  intros listing.
  refine (proj1 (delete_refuses _ listing _ _ 0 0 "bkt" "a/" false
                   (ListResult.mk [S3Object.mk "a/x.txt" 1 None None None] []
                                  false None)
                   (mkFs [] []) _ _ _)).
  - reflexivity.
  - reflexivity.
  - vm_compute. discriminate.
Defined.

(** X16. Recursive delete of a directory: after one listing call for the
    key (the first page only, truncated or not), it deletes every listed
    object key and then every listed prefix, each once and in listing order,
    then the directory marker, which is the key itself; when the listed
    keys are deleted without error it fulfils and fires [Deleted], whether
    or not deleting the marker succeeds. *)
Theorem delete_recursive
        (getObjectMetadataRemote :
           list RemoteCall -> string -> string -> Settled ObjectMetadata.t)
        (listObjectsRemote :
           list RemoteCall -> string -> option string -> option string ->
           Settled ListResult.t)
        (deleteObjectRemote : list RemoteCall -> string -> string ->
                              Settled unit)
        (firstToReject : list Exception -> Exception)
        (now1 now2 : Z) (bucket key : string)
        (result : ListResult.t) (fs : Fs) :
  Js.endsWith key "/" = true ->
  listObjectsRemote (remoteCalls fs) bucket (Some key) None
  = Fulfilled result ->
  (forall calls k,
      k ∈ map S3Object.key (ListResult.objects result)
          ++ map S3Prefix.prefix (ListResult.prefixes result) ->
      deleteObjectRemote calls bucket k = Fulfilled tt) ->
  S3FileSystemProvider.delete
    getObjectMetadataRemote listObjectsRemote deleteObjectRemote
    firstToReject now1 now2 bucket key true fs
  = (Fulfilled tt,
     mkFs (remoteCalls fs
           ++ [ListObjects bucket (Some key) None]
           ++ map (DeleteObject bucket)
                  (map S3Object.key (ListResult.objects result)
                   ++ map S3Prefix.prefix (ListResult.prefixes result))
           ++ [DeleteObject bucket key])
          (firedSoon fs ++ [(Deleted, (bucket, key))])).
Proof.
  intros Hdir Hlist Hok.
  unfold S3FileSystemProvider.delete.
  destruct key as [|a key]; [done|]. cbn [Js.truthy negb].
  remember (String a key) as k eqn:Hk.
  assert (k <> "") as Hne by (by subst).
  clear a key Hk.
  unfold tryCatch, bind.
  rewrite stat_dir by (by right). cbn [FileStat.type negb]. cbv beta iota.
  rewrite Hdir. unfold ret at 1. cbv beta iota.
  unfold S3FileSystemProvider.listObjectsAsync at 1. rewrite Hlist.
  cbv beta iota zeta. rewrite !pushEach_map. cbn [app].
  set (keys := map S3Object.key (ListResult.objects result)
               ++ map S3Prefix.prefix (ListResult.prefixes result)) in *.
  set (fs1 := mkFs (remoteCalls fs ++ [ListObjects bucket (Some k) None])
                   (firedSoon fs)).
  assert ((if (0 <? length keys)%nat
           then S3FileSystemProvider.deleteInBatches
                  deleteObjectRemote firstToReject bucket (deleteBatches keys)
           else ret tt) fs1
          = (Fulfilled tt,
             mkFs (remoteCalls fs1 ++ map (DeleteObject bucket) keys)
                  (firedSoon fs1))) as ->.
  { destruct (Nat.ltb_spec 0 (length keys)) as [Hpos|Hzero].
    - assert (concat (deleteBatches keys) = keys) as Hcat
          by (unfold deleteBatches; rewrite batchesFrom_concat by lia;
              apply drop_0).
      rewrite deleteInBatches_success; rewrite Hcat; done.
    - destruct keys; [|simpl in Hzero; lia].
      unfold ret. simpl. rewrite app_nil_r. done. }
  cbv beta iota.
  unfold S3FileSystemProvider.deleteObject, ret, fireSoon, fs1.
  cbn [remoteCalls firedSoon].
  destruct (deleteObjectRemote _ bucket k) as [[]|e];
    cbn [remoteCalls firedSoon]; by rewrite <- !app_assoc.
Qed.

Lemma delete_recursive_witness :
  let obj := fun k => S3Object.mk k 1 None None None in
  let listing : list RemoteCall -> string -> option string ->
                option string -> Settled ListResult.t :=
    fun _ _ _ _ =>
      Fulfilled (ListResult.mk [obj "a/"; obj "a/x.txt"] [S3Prefix.mk "a/b/"]
                               true (Some "more")) in
  S3FileSystemProvider.delete
    (fun _ _ _ => Rejected (ExOther "unused")) listing
    (fun _ _ _ => Fulfilled tt) (fun _ => ExOther "unused")
    0 0 "bkt" "a/" true (mkFs [] [])
  = (Fulfilled tt,
     mkFs [ListObjects "bkt" (Some "a/") None;
           DeleteObject "bkt" "a/"; DeleteObject "bkt" "a/x.txt";
           DeleteObject "bkt" "a/b/"; DeleteObject "bkt" "a/"]
          [(Deleted, ("bkt", "a/"))]).
Proof.
  intros obj listing.
  refine (delete_recursive _ listing _ _ 0 0 "bkt" "a/"
            (ListResult.mk [obj "a/"; obj "a/x.txt"] [S3Prefix.mk "a/b/"]
                           true (Some "more"))
            (mkFs [] []) _ _ _); reflexivity.
Defined.

(** X17. Deleting a file: a non-empty key without a trailing slash is
    probed once with [getObjectMetadata]; only when the probe succeeds is
    [deleteObject] called, exactly once and on that key, whatever
    [recursive] says, and [Deleted] fires only when that call succeeds; a
    probe failing with [NoSuchKey] gives [FileNotFound], any other failure
    [Unavailable]. *)
Theorem delete_file
        (getObjectMetadataRemote :
           list RemoteCall -> string -> string -> Settled ObjectMetadata.t)
        (listObjectsRemote :
           list RemoteCall -> string -> option string -> option string ->
           Settled ListResult.t)
        (deleteObjectRemote : list RemoteCall -> string -> string ->
                              Settled unit)
        (firstToReject : list Exception -> Exception)
        (now1 now2 : Z) (bucket key : string) (recursive : bool) (fs : Fs) :
  key <> "" -> Js.endsWith key "/" = false ->
  let r := S3FileSystemProvider.delete
             getObjectMetadataRemote listObjectsRemote deleteObjectRemote
             firstToReject now1 now2 bucket key recursive fs in
  match getObjectMetadataRemote (remoteCalls fs) bucket key with
  | Fulfilled _ =>
      remoteCalls (snd r)
      = remoteCalls fs
        ++ [GetObjectMetadata bucket key; DeleteObject bucket key]
      /\ match deleteObjectRemote
                 (remoteCalls fs ++ [GetObjectMetadata bucket key])
                 bucket key with
         | Fulfilled _ =>
             fst r = Fulfilled tt
             /\ firedSoon (snd r) = firedSoon fs ++ [(Deleted, (bucket, key))]
         | Rejected error =>
             fst r
             = Rejected (if isFileSystemError error then error
                         else ExFileSystemError FileSystemError.Unavailable)
             /\ firedSoon (snd r) = firedSoon fs
         end
  | Rejected error =>
      r = (Rejected
             (ExFileSystemError
                (if isNoSuchKey error then FileSystemError.FileNotFound
                 else FileSystemError.Unavailable)),
           mkFs (remoteCalls fs ++ [GetObjectMetadata bucket key])
                (firedSoon fs))
  end.
Proof.
  intros Hkey Hfile r. unfold r. clear r.
  unfold S3FileSystemProvider.delete.
  destruct key as [|a key]; [done|]. cbn [Js.truthy negb].
  remember (String a key) as k eqn:Hk.
  assert (k <> "") as Hne by (by subst).
  clear a key Hk.
  unfold tryCatch, bind.
  rewrite stat_file by done.
  destruct (getObjectMetadataRemote (remoteCalls fs) bucket k) as [md|e].
  - cbn [FileStat.type]. unfold S3FileSystemProvider.deleteObject,
      fireSoon, throw. cbn [remoteCalls firedSoon].
    destruct (deleteObjectRemote _ bucket k) as [[]|e];
      cbn [fst snd remoteCalls firedSoon].
    + by rewrite <- app_assoc.
    + destruct (isFileSystemError e); cbn [fst snd remoteCalls firedSoon];
        by rewrite <- app_assoc.
  - cbn [isFileSystemError]. unfold throw. done.
Qed.

Lemma delete_file_witness :
  let found : list RemoteCall -> string -> string ->
              Settled ObjectMetadata.t :=
    fun _ _ _ => Fulfilled (ObjectMetadata.mk (Some 5) None) in
  S3FileSystemProvider.delete
    found (fun _ _ _ _ => Rejected (ExOther "unused"))
    (fun _ _ _ => Fulfilled tt) (fun _ => ExOther "unused")
    0 0 "bkt" "a/x.txt" true (mkFs [] [])
  = (Fulfilled tt,
     mkFs [GetObjectMetadata "bkt" "a/x.txt"; DeleteObject "bkt" "a/x.txt"]
          [(Deleted, ("bkt", "a/x.txt"))])
  /\ remoteCalls
       (snd (S3FileSystemProvider.delete
               found (fun _ _ _ _ => Rejected (ExOther "unused"))
               (fun _ _ _ => Fulfilled tt) (fun _ => ExOther "unused")
               0 0 "bkt" "a/x.txt" true (mkFs [] [])))
     = [GetObjectMetadata "bkt" "a/x.txt"; DeleteObject "bkt" "a/x.txt"].
Proof.
  intros found. split; [vm_compute; reflexivity|].
  pose proof (delete_file found (fun _ _ _ _ => Rejected (ExOther "unused"))
                (fun _ _ _ => Fulfilled tt) (fun _ => ExOther "unused")
                0 0 "bkt" "a/x.txt" true (mkFs [] [])) as H.
  simpl in H. apply H; [discriminate|reflexivity].
Defined.

(* ===================================================================== *)
(** ** Directory listing: what is listed *)
(* ===================================================================== *)

Section ListedChildren.

Implicit Types (prefix : option string) (key name : string)
         (entries : list (string * FileType)).

Lemma pushFile_app prefix entries (o : S3Object.t) :
  pushFile prefix entries o = entries ++ pushFile prefix [] o.
Proof.
  unfold pushFile. destruct (Js.includes _ _); [by rewrite app_nil_r|].
  destruct (Js.truthy _); [done|by rewrite app_nil_r].
Qed.

Lemma pushFolder_app prefix entries (p : S3Prefix.t) :
  pushFolder prefix entries p = entries ++ pushFolder prefix [] p.
Proof.
  unfold pushFolder. destruct (Js.truthy _); [done|by rewrite app_nil_r].
Qed.

Lemma fold_left_push {A} (body : list (string * FileType) -> A ->
                                 list (string * FileType))
      (items : list A) entries :
  (forall es x, body es x = es ++ body [] x) ->
  fold_left body items entries = entries ++ concat (map (body []) items).
Proof.
  intros Hbody. revert entries.
  induction items as [|x items IH]; intros es; simpl.
  - by rewrite app_nil_r.
  - rewrite IH, Hbody. by rewrite <- app_assoc.
Qed.

Lemma elem_of_concat_2 {A} (x : A) (l : list A) (ls : list (list A)) :
  x ∈ l -> l ∈ ls -> x ∈ concat ls.
Proof.
  intros Hx Hl. apply list_elem_of_In, in_concat.
  exists l. split; by apply list_elem_of_In.
Qed.

Lemma directoryEntries_split prefix (result : ListResult.t) :
  directoryEntries prefix result
  = concat (map (pushFolder prefix []) (ListResult.prefixes result))
    ++ concat (map (pushFile prefix []) (ListResult.objects result)).
Proof.
  unfold directoryEntries.
  rewrite (fold_left_push (pushFile prefix)) by apply pushFile_app.
  by rewrite (fold_left_push (pushFolder prefix)) by apply pushFolder_app.
Qed.

Lemma stripParent_child key name :
  stripParent (Js.orUndefined key) (key +:+ name) = name.
Proof.
  destruct key as [|a key]; [done|].
  unfold stripParent, Js.orUndefined. simpl Js.truthy. cbv iota.
  simpl default. unfold Js.substringFrom. rewrite string_length_app.
  replace (String.length (String a key) + String.length name
           - String.length (String a key))%nat
    with (String.length name) by lia.
  apply substring_tail.
Qed.

Lemma truthy_nonempty_true name : name <> "" -> Js.truthy (Some name) = true.
Proof. by destruct name. Qed.

Lemma concat_pushFolder_kind prefix (ps : list S3Prefix.t) :
  Forall (fun e => snd e = Directory) (concat (map (pushFolder prefix []) ps)).
Proof.
  induction ps as [|p ps IH]; simpl; [constructor|].
  apply Forall_app. split; [|done].
  unfold pushFolder. destruct (Js.truthy _); repeat constructor.
Qed.

Lemma concat_pushFile_kind prefix (os : list S3Object.t) :
  Forall (fun e => snd e = File) (concat (map (pushFile prefix []) os)).
Proof.
  induction os as [|o os IH]; simpl; [constructor|].
  apply Forall_app. split; [|done].
  unfold pushFile. destruct (Js.includes _ _); [constructor|].
  destruct (Js.truthy _); repeat constructor.
Qed.

End ListedChildren.

(** X18. Direct children are listed: when the listing succeeds,
    [readDirectory] returns a [File] entry [name] for every listed object
    whose key is the requested key followed by a non-empty, slash-free
    [name], and a [Directory] entry [name] for every listed prefix that is
    the requested key followed by a non-empty [name] and a slash; all
    directory entries come before all file entries. *)
Theorem readDirectory_lists_children
        (listObjects : list ListCall -> string -> option string ->
                       option string -> Outcome ListResult.t)
        (w : World) (bucket key : string) (result : ListResult.t) :
  listObjects (listCalls w) bucket (Js.orUndefined key) None = Ok result ->
  exists dirs files,
    fst (readDirectory listObjects w bucket key) = Ok (dirs ++ files)
    /\ Forall (fun e => snd e = Directory) dirs
    /\ Forall (fun e => snd e = File) files
    /\ (forall o name,
          o ∈ ListResult.objects result ->
          S3Object.key o = key +:+ name ->
          name <> "" -> Js.includes name "/" = false ->
          (name, File) ∈ files)
    /\ (forall p name,
          p ∈ ListResult.prefixes result ->
          S3Prefix.prefix p = key +:+ name +:+ "/" ->
          name <> "" ->
          (name, Directory) ∈ dirs).
Proof.
  intros Hlist.
  exists (concat (map (pushFolder (Js.orUndefined key) [])
                      (ListResult.prefixes result))),
         (concat (map (pushFile (Js.orUndefined key) [])
                      (ListResult.objects result))).
  split.
  { unfold readDirectory. fold (Js.orUndefined key). rewrite Hlist. simpl.
    by rewrite directoryEntries_split. }
  split; [apply concat_pushFolder_kind|].
  split; [apply concat_pushFile_kind|]. split.
  - intros o name Ho Hkey Hname Hslash.
    apply (elem_of_concat_2 _ [(name, File)]);
      [by apply list_elem_of_singleton|].
    apply list_elem_of_fmap. exists o. split; [|done].
    unfold pushFile. rewrite Hkey, stripParent_child, Hslash.
    by rewrite truthy_nonempty_true.
  - intros p name Hp Hkey Hname.
    apply (elem_of_concat_2 _ [(name, Directory)]);
      [by apply list_elem_of_singleton|].
    apply list_elem_of_fmap. exists p. split; [|done].
    unfold pushFolder. rewrite Hkey, stripParent_child.
    unfold Js.stripTrailingSlash. rewrite endsWith_app, sliceInit_slash.
    by rewrite truthy_nonempty_true.
Qed.

Lemma readDirectory_lists_children_witness :
  let obj := fun k => S3Object.mk k 0 None None None in
  let remote : list ListCall -> string -> option string -> option string ->
               Outcome ListResult.t :=
    fun _ _ _ _ =>
      Ok (ListResult.mk [obj "a/"; obj "a/x.txt"] [S3Prefix.mk "a/b/"]
                        false None) in
  exists dirs files,
    fst (readDirectory remote (mkWorld (newCache DEFAULT_TTL) []) "bkt" "a/")
    = Ok (dirs ++ files)
    /\ ("x.txt", File) ∈ files
    /\ ("b", Directory) ∈ dirs.
Proof.
  intros obj remote.
  destruct (readDirectory_lists_children
              remote (mkWorld (newCache DEFAULT_TTL) []) "bkt" "a/"
              (ListResult.mk [obj "a/"; obj "a/x.txt"] [S3Prefix.mk "a/b/"]
                             false None) eq_refl)
    as (dirs & files & Hr & _ & _ & Hfiles & Hdirs).
  exists dirs, files. split; [exact Hr|]. split.
  - apply (Hfiles (obj "a/x.txt") "x.txt"); try done.
    apply elem_of_cons. right. apply elem_of_cons. by left.
  - apply (Hdirs (S3Prefix.mk "a/b/") "b"); try done.
    apply elem_of_cons. by left.
Defined.

(* ===================================================================== *)
(** ** Listing cache: reach of a prefix invalidation, merge round trip *)
(* ===================================================================== *)

Section InvalidateScope.

Lemma parentKeys_bucket (bucket : string) (parts : list string) (k : string) :
  k ∈ parentKeys bucket parts -> exists p, k = getCacheKey bucket p.
Proof.
  unfold parentKeys. intros Hk.
  apply list_elem_of_fmap in Hk as (i & -> & _). eauto.
Qed.

End InvalidateScope.

(** X19. Reach of a prefix invalidation: for a non-empty prefix,
    [invalidate(b, p)] removes the entry of the exact key and the entry of
    the bucket root, and leaves every entry of every other bucket as it
    was, bucket names being colon-free. *)
Theorem invalidate_prefix_scope (c : S3Cache) (b b' p : string) :
  Js.truthy (Some p) = true ->
  colonFree b -> colonFree b' -> b <> b' ->
  cache (invalidate c b (Some p)) !! getCacheKey b (Some p) = None
  /\ cache (invalidate c b (Some p)) !! getCacheKey b None = None
  /\ (forall p', cache (invalidate c b (Some p)) !! getCacheKey b' p'
                 = cache c !! getCacheKey b' p').
Proof.
  intros Hp Hb Hb' Hne.
  destruct (invalidate_exact_and_root c b p Hp) as [H1 H2].
  split; [done|]. split; [done|]. intros p'.
  assert (forall q, getCacheKey b' p' <> getCacheKey b q) as Hother.
  { intros q Heq. unfold getCacheKey in Heq.
    apply colonFree_split in Heq as [-> _]; done. }
  unfold invalidate. rewrite Hp. simpl.
  rewrite fold_delete_lookup. case_bool_decide as Hin.
  - apply parentKeys_bucket in Hin as [q Hq]. by apply Hother in Hq.
  - apply lookup_delete_ne. intros Heq. symmetry in Heq.
    by apply Hother in Heq.
Qed.

Lemma invalidate_prefix_scope_witness :
  let c := set (set (newCache DEFAULT_TTL) 0 "one" [] [] false None
                    (Some "a/b/"))
               0 "two" [] [] false None (Some "a/b/") in
  cache (invalidate c "one" (Some "a/b/")) !! getCacheKey "one" (Some "a/b/")
  = None
  /\ cache (invalidate c "one" (Some "a/b/"))
       !! getCacheKey "two" (Some "a/b/")
     = Some (CacheEntry.mk [] [] 0 false None).
Proof.
  intros c.
  destruct (invalidate_prefix_scope c "one" "two" "a/b/")
    as (H1 & _ & H3); try reflexivity; [discriminate|].
  split; [exact H1|]. rewrite H3. vm_compute. reflexivity.
Defined.

(** X20. Merge round trip: [append] does not look at the age of the entry
    it merges into; a [get] within the ttl of an [append] answers the merged
    entry, stamped with the time of the [append], however old the existing
    entry was. *)
Theorem append_get_roundtrip (c : S3Cache) (t now : Z) (bucket : string)
        (objects : list S3Object.t) (prefixes : list S3Prefix.t)
        (isTruncated : bool) (continuationToken prefix : option string)
        (existing : CacheEntry.t) :
  cache c !! getCacheKey bucket prefix = Some existing ->
  now - t <= ttl c ->
  let c' := append c t bucket objects prefixes isTruncated continuationToken
                   prefix in
  get c' now bucket prefix
  = (Some (CacheEntry.mk
             (uniqueObjects (CacheEntry.objects existing ++ objects))
             (uniquePrefixes (CacheEntry.prefixes existing ++ prefixes))
             t isTruncated continuationToken),
     c').
Proof.
  intros Hin Hfresh c'. unfold c'.
  rewrite (append_existing _ _ _ _ _ _ _ _ _ Hin).
  apply get_fresh; [apply lookup_insert_eq|done].
Qed.

Lemma append_get_roundtrip_witness :
  let o := fun k => S3Object.mk k 1 None None None in
  let c := set (newCache 100) 0 "bkt" [o "a"] [] true (Some "tok") None in
  fst (get c 1000 "bkt" None) = None
  /\ fst (get (append c 1000 "bkt" [o "b"] [] false None None) 1000 "bkt"
              None)
     = Some (CacheEntry.mk [o "a"; o "b"] [] 1000 false None).
Proof.
  intros o c. split; [vm_compute; reflexivity|].
  rewrite (append_get_roundtrip c 1000 1000 "bkt" [o "b"] [] false None None
             (CacheEntry.mk [o "a"] [] 0 true (Some "tok")));
    [vm_compute; reflexivity|vm_compute; reflexivity|vm_compute; discriminate].
Defined.
